(** * biopics-mcp: the tool dispatcher and its request client

    A shallow embedding of [src/index.ts]: the response envelopes
    ([toolResult], [toolError]), the request client ([api]) and the eight
    tool handlers registered with [server.tool], together with the parts of
    the JavaScript platform they call ([JSON.stringify], [JSON.parse],
    [URLSearchParams], object spread, truthiness).

    Conventions of the model:
    - a JavaScript string is a [string]: the sequence of its UTF-8 bytes;
    - a JavaScript number is a [Z]: the handlers only test numbers for
      truthiness and print them, and the model covers the safe integers
      (fractions, exponents, negative zero, integers beyond
      [Number.MAX_SAFE_INTEGER] and non-finite numbers are outside it);
    - a plain JavaScript object is an association list in property order,
      updated with [Obj.set];
    - [JSON_parse] gives the value of a JSON text within the model and
      [JSON_valid] recognizes every JSON text; a text that is valid and has
      no value in the model (a number that is no safe integer, a surrogate
      escape, a property name of digits only) is parsed by the program all
      the same: [res.json()] then gives [Foreign] data, whose
      serialization the response brings along;
    - an exception is a value of [thrown]; code that may throw, or wait for
      ever, returns [result]. *)

From Stdlib Require Import String Ascii List ZArith NArith Lia Bool.
From Stdlib Require Import Decimal DecimalFacts DecimalN.
Import ListNotations.
Open Scope string_scope.

(** ** Strings *)

Definition chr (n : N) : ascii := ascii_of_N n.
Definition code (c : ascii) : N := N_of_ascii c.
Definition str1 (c : ascii) : string := String c EmptyString.

Definition dquote : ascii := chr 34.
Definition backslash : ascii := chr 92.

(** [s.includes(sub)] *)
Fixpoint includes (sub s : string) : bool :=
  String.prefix sub s
  || match s with
     | EmptyString => false
     | String _ s' => includes sub s'
     end.

(** number of occurrences of the character [c] in [s] *)
Fixpoint count_char (c : ascii) (s : string) : nat :=
  match s with
  | EmptyString => 0
  | String a s' => (if Ascii.eqb a c then 1 else 0) + count_char c s'
  end.

(** JavaScript truthiness of the values the handlers test *)
Definition truthy_string (s : string) : bool :=
  match s with EmptyString => false | String _ _ => true end.

Definition truthy_number (n : Z) : bool := negb (n =? 0)%Z.

(** truthiness of an optional argument: [undefined] is falsy *)
Definition truthy_opt {A} (t : A -> bool) (o : option A) : bool :=
  match o with Some a => t a | None => false end.

(** ** Plain objects: property lists in property order *)

Module Obj.
Section Obj.
Context {V : Type}.

Definition t := list (string * V).

Fixpoint get (o : t) (k : string) : option V :=
  match o with
  | [] => None
  | (k', v) :: o' => if String.eqb k' k then Some v else get o' k
  end.

(** [o[k] = v]: an existing property keeps its place, a new one goes last *)
Fixpoint set (o : t) (k : string) (v : V) : t :=
  match o with
  | [] => [(k, v)]
  | (k', v') :: o' =>
      if String.eqb k' k then (k', v) :: o' else (k', v') :: set o' k v
  end.

Definition keys (o : t) : list string := map fst o.

(** [{...a, ...b}] *)
Definition spread (a b : t) : t :=
  fold_left (fun o kv => set o (fst kv) (snd kv)) b a.
End Obj.
Arguments t : clear implicits.
End Obj.

(** ** JSON values *)

#[local] Set Warnings "-register-all".

Inductive json : Type :=
| JNull
| JBool (b : bool)
| JNum (n : Z)
| JStr (s : string)
| JArr (items : list json)
| JObj (members : list (string * json)).

(** *** Number::toString and the decimal digits *)

Fixpoint string_of_digits (d : uint) : string :=
  match d with
  | Nil => EmptyString
  | D0 d => String "0" (string_of_digits d)
  | D1 d => String "1" (string_of_digits d)
  | D2 d => String "2" (string_of_digits d)
  | D3 d => String "3" (string_of_digits d)
  | D4 d => String "4" (string_of_digits d)
  | D5 d => String "5" (string_of_digits d)
  | D6 d => String "6" (string_of_digits d)
  | D7 d => String "7" (string_of_digits d)
  | D8 d => String "8" (string_of_digits d)
  | D9 d => String "9" (string_of_digits d)
  end.

Definition string_of_N (n : N) : string := string_of_digits (N.to_uint n).

(** [String(n)] for a safe integer [n]: its decimal digits, with a sign
    when negative (an integer of 22 digits or more is printed with an
    exponent by the platform, and in full here) *)
Definition string_of_number (n : Z) : string :=
  match n with
  | Z0 => "0"
  | Zpos p => string_of_N (Npos p)
  | Zneg p => "-" ++ string_of_N (Npos p)
  end.

(** *** JSON.stringify *)

Definition hex_digit (upper : bool) (n : N) : ascii :=
  if (n <? 10)%N then chr (48 + n)
  else chr ((if upper then 55 else 87) + n).

(** UnicodeEscape of a code unit below 256 *)
Definition unicode_escape (n : N) : string :=
  "\u00" ++ String (hex_digit false (n / 16)) (str1 (hex_digit false (n mod 16))).

Definition quote_char (c : ascii) : string :=
  let n := code c in
  if (n =? 8)%N then "\b"
  else if (n =? 9)%N then "\t"
  else if (n =? 10)%N then "\n"
  else if (n =? 12)%N then "\f"
  else if (n =? 13)%N then "\r"
  else if (n =? 34)%N then String backslash (str1 dquote)
  else if (n =? 92)%N then String backslash (str1 backslash)
  else if (n <? 32)%N then unicode_escape n
  else str1 c.

Fixpoint quote_chars (s : string) : string :=
  match s with
  | EmptyString => EmptyString
  | String c s' => quote_char c ++ quote_chars s'
  end.

(** QuoteJSONString *)
Definition quote_json_string (s : string) : string :=
  String dquote (quote_chars s ++ str1 dquote).

Definition newline : string := str1 (chr 10).

(** the common end of SerializeJSONArray and SerializeJSONObject: [partial]
    holds the serialized elements, [stepback] the indentation outside and
    [indent] the one inside *)
Definition json_wrap (opening closing gap stepback indent : string)
    (partial : list string) : string :=
  match partial with
  | [] => opening ++ closing
  | _ =>
      if truthy_string gap
      then opening ++ newline ++ indent
           ++ String.concat ("," ++ newline ++ indent) partial
           ++ newline ++ stepback ++ closing
      else opening ++ String.concat "," partial ++ closing
  end.

Definition json_member (gap : string) (k sv : string) : string :=
  quote_json_string k ++ ":" ++ (if truthy_string gap then " " else EmptyString) ++ sv.

(** SerializeJSONProperty, for a value that came out of [JSON.parse] or was
    built from strings and numbers *)
Fixpoint serialize (gap indent : string) (v : json) : string :=
  match v with
  | JNull => "null"
  | JBool true => "true"
  | JBool false => "false"
  | JNum n => string_of_number n
  | JStr s => quote_json_string s
  | JArr items =>
      json_wrap "[" "]" gap indent (indent ++ gap)
        (map (serialize gap (indent ++ gap)) items)
  | JObj members =>
      json_wrap "{" "}" gap indent (indent ++ gap)
        (map (fun kv => json_member gap (fst kv) (serialize gap (indent ++ gap) (snd kv)))
             members)
  end.

Fixpoint spaces (n : nat) : string :=
  match n with O => EmptyString | S n' => String " " (spaces n') end.

(** [JSON.stringify(v, null, space)] with a numeric [space] (at most 10) *)
Definition JSON_stringify (v : json) (space : nat) : string :=
  serialize (spaces (Nat.min space 10)) EmptyString v.

(** *** JSON.parse *)

Definition is_ws (c : ascii) : bool :=
  let n := code c in
  ((n =? 32) || (n =? 9) || (n =? 10) || (n =? 13))%N.

Fixpoint skip_ws (s : string) : string :=
  match s with
  | String c s' => if is_ws c then skip_ws s' else s
  | EmptyString => s
  end.

Definition digit_of_char (c : ascii) : option (uint -> uint) :=
  let n := code c in
  if (n =? 48)%N then Some D0
  else if (n =? 49)%N then Some D1
  else if (n =? 50)%N then Some D2
  else if (n =? 51)%N then Some D3
  else if (n =? 52)%N then Some D4
  else if (n =? 53)%N then Some D5
  else if (n =? 54)%N then Some D6
  else if (n =? 55)%N then Some D7
  else if (n =? 56)%N then Some D8
  else if (n =? 57)%N then Some D9
  else None.

(** the longest run of decimal digits at the head of [s] *)
Fixpoint read_digits (s : string) : uint * string :=
  match s with
  | EmptyString => (Nil, s)
  | String c s' =>
      match digit_of_char c with
      | Some k => let (d, r) := read_digits s' in (k d, r)
      | None => (Nil, s)
      end
  end.

(** [Number.MAX_SAFE_INTEGER]: up to it every integer is a number of its own *)
Definition MAX_SAFE_INTEGER : Z := 9007199254740991.

Definition safe_integer (n : Z) : bool := (Z.abs n <=? MAX_SAFE_INTEGER)%Z.

(** a property name of decimal digits only: JavaScript lists the integer
    indices among them first, whatever the order of insertion, so that an
    object with such a name is outside the model *)
Fixpoint digits_only (s : string) : bool :=
  match s with
  | EmptyString => true
  | String c s' =>
      match digit_of_char c with
      | Some _ => digits_only s'
      | None => false
      end
  end.

Definition index_like (k : string) : bool := truthy_string k && digits_only k.

(** a fraction or an exponent would follow *)
Definition starts_fraction (s : string) : bool :=
  match s with
  | EmptyString => false
  | String c _ => let n := code c in ((n =? 46) || (n =? 101) || (n =? 69))%N
  end.

(** JSON [int]: a single 0, or a digit from 1 to 9 followed by digits *)
Definition parse_int (s : string) : option (N * string) :=
  match s with
  | EmptyString => None
  | String c s' =>
      if (code c =? 48)%N then Some (0%N, s')
      else match digit_of_char c with
           | Some _ => let (d, r) := read_digits s in Some (N.of_uint d, r)
           | None => None
           end
  end.

Definition parse_number (s : string) : option (Z * string) :=
  match s with
  | EmptyString => None
  | String c s' =>
      match (if (code c =? 45)%N
             then match parse_int s' with
                  | Some (0%N, _) => None
                  | Some (n, r) => Some (Z.opp (Z.of_N n), r)
                  | None => None
                  end
             else match parse_int s with
                  | Some (n, r) => Some (Z.of_N n, r)
                  | None => None
                  end) with
      | Some (z, r) =>
          if starts_fraction r then None
          else if safe_integer z then Some (z, r)
          else None
      | None => None
      end
  end.

Definition hex_value (c : ascii) : option N :=
  let n := code c in
  if ((48 <=? n) && (n <=? 57))%N then Some (n - 48)%N
  else if ((65 <=? n) && (n <=? 70))%N then Some (n - 55)%N
  else if ((97 <=? n) && (n <=? 102))%N then Some (n - 87)%N
  else None.

Definition hex4 (a b c d : ascii) : option N :=
  match hex_value a, hex_value b, hex_value c, hex_value d with
  | Some x, Some y, Some z, Some w => Some (((x * 16 + y) * 16 + z) * 16 + w)%N
  | _, _, _, _ => None
  end.

(** the UTF-8 bytes of a code unit that is not a surrogate *)
Definition utf8_of_code_unit (u : N) : option string :=
  if (u <? 128)%N then Some (str1 (chr u))
  else if (u <? 2048)%N
  then Some (String (chr (192 + u / 64)) (str1 (chr (128 + u mod 64))))
  else if ((55296 <=? u) && (u <? 57344))%N then None
  else Some (String (chr (224 + u / 4096))
               (String (chr (128 + (u / 64) mod 64)) (str1 (chr (128 + u mod 64))))).

Definition simple_escape (c : ascii) : option ascii :=
  let n := code c in
  if (n =? 34)%N then Some dquote
  else if (n =? 92)%N then Some backslash
  else if (n =? 47)%N then Some (chr 47)
  else if (n =? 98)%N then Some (chr 8)
  else if (n =? 102)%N then Some (chr 12)
  else if (n =? 110)%N then Some (chr 10)
  else if (n =? 114)%N then Some (chr 13)
  else if (n =? 116)%N then Some (chr 9)
  else None.

Definition prepend (p : string) (o : option (string * string)) :
    option (string * string) :=
  match o with
  | Some (s, r) => Some (p ++ s, r)
  | None => None
  end.

(** the characters of a JSON string after its opening quote, up to and
    including the closing one; the escape of a surrogate is outside the
    model *)
Fixpoint parse_chars (s : string) : option (string * string) :=
  match s with
  | EmptyString => None
  | String c s1 =>
      if (code c =? 34)%N then Some (EmptyString, s1)
      else if (code c =? 92)%N then
        match s1 with
        | EmptyString => None
        | String e s2 =>
            if (code e =? 117)%N then
              match s2 with
              | String h1 (String h2 (String h3 (String h4 s3))) =>
                  match hex4 h1 h2 h3 h4 with
                  | Some u =>
                      match utf8_of_code_unit u with
                      | Some p => prepend p (parse_chars s3)
                      | None => None
                      end
                  | None => None
                  end
              | _ => None
              end
            else
              match simple_escape e with
              | Some a => prepend (str1 a) (parse_chars s2)
              | None => None
              end
        end
      else if (code c <? 32)%N then None
      else prepend (str1 c) (parse_chars s1)
  end.

(** [s] without the prefix [p] *)
Fixpoint strip_prefix (p s : string) : option string :=
  match p, s with
  | EmptyString, _ => Some s
  | String a p', String b s' => if Ascii.eqb a b then strip_prefix p' s' else None
  | String _ _, EmptyString => None
  end.

Definition literal (p : string) (v : json) (s : string) : option (json * string) :=
  match strip_prefix p s with
  | Some r => Some (v, r)
  | None => None
  end.

(** the recursive descent of JSON.parse; [fuel] bounds the nesting of calls *)
Fixpoint parse_value (fuel : nat) (s : string) : option (json * string) :=
  match fuel with
  | O => None
  | S f =>
      match skip_ws s with
      | EmptyString => None
      | String c s1 =>
          if (code c =? 110)%N then literal "ull" JNull s1
          else if (code c =? 116)%N then literal "rue" (JBool true) s1
          else if (code c =? 102)%N then literal "alse" (JBool false) s1
          else if (code c =? 34)%N then
            match parse_chars s1 with
            | Some (x, r) => Some (JStr x, r)
            | None => None
            end
          else if (code c =? 91)%N then
            match skip_ws s1 with
            | EmptyString => None
            | String c2 s2 =>
                if (code c2 =? 93)%N then Some (JArr [], s2)
                else match parse_elements f s1 with
                     | Some (vs, r) => Some (JArr vs, r)
                     | None => None
                     end
            end
          else if (code c =? 123)%N then
            match skip_ws s1 with
            | EmptyString => None
            | String c2 s2 =>
                if (code c2 =? 125)%N then Some (JObj [], s2)
                else match parse_members f s1 [] with
                     | Some (ms, r) => Some (JObj ms, r)
                     | None => None
                     end
            end
          else match parse_number (String c s1) with
               | Some (n, r) => Some (JNum n, r)
               | None => None
               end
      end
  end

with parse_elements (fuel : nat) (s : string) : option (list json * string) :=
  match fuel with
  | O => None
  | S f =>
      match parse_value f s with
      | None => None
      | Some (v, r) =>
          match skip_ws r with
          | EmptyString => None
          | String c r1 =>
              if (code c =? 44)%N then
                match parse_elements f r1 with
                | Some (vs, r2) => Some (v :: vs, r2)
                | None => None
                end
              else if (code c =? 93)%N then Some ([v], r1)
              else None
          end
      end
  end

(** a later member with the same key replaces the value of the earlier one;
    a key of digits only is outside the model *)
with parse_members (fuel : nat) (s : string) (acc : Obj.t json) :
    option (Obj.t json * string) :=
  match fuel with
  | O => None
  | S f =>
      match skip_ws s with
      | EmptyString => None
      | String c s1 =>
          if (code c =? 34)%N then
            match parse_chars s1 with
            | None => None
            | Some (k, r) =>
                match skip_ws r with
                | EmptyString => None
                | String c2 r1 =>
                    if index_like k then None
                    else if (code c2 =? 58)%N then
                      match parse_value f r1 with
                      | None => None
                      | Some (v, r2) =>
                          match skip_ws r2 with
                          | EmptyString => None
                          | String c3 r3 =>
                              if (code c3 =? 44)%N
                              then parse_members f r3 (Obj.set acc k v)
                              else if (code c3 =? 125)%N
                              then Some (Obj.set acc k v, r3)
                              else None
                          end
                      end
                    else None
                end
            end
          else None
      end
  end.

(** the value [JSON.parse(s)] gives, within the model: [None] where [s] is
    no JSON text, and where it is one with a value outside the model *)
Definition JSON_parse (s : string) : option json :=
  match parse_value (S (String.length s)) s with
  | Some (v, r) =>
      match skip_ws r with
      | EmptyString => Some v
      | String _ _ => None
      end
  | None => None
  end.

(** *** The JSON grammar *)

Definition is_digit (c : ascii) : bool := ((48 <=? code c) && (code c <=? 57))%N.

Fixpoint skip_digits (s : string) : string :=
  match s with
  | String c s' => if is_digit c then skip_digits s' else s
  | EmptyString => s
  end.

(** one digit at least, then digits *)
Definition valid_digits (s : string) : option string :=
  match s with
  | String c s' => if is_digit c then Some (skip_digits s') else None
  | EmptyString => None
  end.

(** [int]: a single 0, or a digit from 1 to 9 followed by digits *)
Definition valid_int (s : string) : option string :=
  match s with
  | String c s' =>
      if (code c =? 48)%N then Some s'
      else if is_digit c then Some (skip_digits s')
      else None
  | EmptyString => None
  end.

(** [frac], if there is one: a point, then digits *)
Definition valid_fraction (s : string) : option string :=
  match s with
  | String c s' => if (code c =? 46)%N then valid_digits s' else Some s
  | EmptyString => Some s
  end.

(** [exp], if there is one: e or E, a sign if any, then digits *)
Definition valid_exponent (s : string) : option string :=
  match s with
  | String c s' =>
      if ((code c =? 101) || (code c =? 69))%N then
        match s' with
        | String g s'' =>
            if ((code g =? 43) || (code g =? 45))%N then valid_digits s''
            else valid_digits s'
        | EmptyString => None
        end
      else Some s
  | EmptyString => Some s
  end.

(** a JSON number: a minus sign if any, [int], [frac] if any, [exp] if any;
    what is left of [s] after it *)
Definition valid_number (s : string) : option string :=
  match (match s with
         | String c s' => if (code c =? 45)%N then valid_int s' else valid_int s
         | EmptyString => None
         end) with
  | Some r =>
      match valid_fraction r with
      | Some r' => valid_exponent r'
      | None => None
      end
  | None => None
  end.

(** the characters of a JSON string after its opening quote: what is left
    after the closing one *)
Fixpoint valid_chars (s : string) : option string :=
  match s with
  | EmptyString => None
  | String c s1 =>
      if (code c =? 34)%N then Some s1
      else if (code c =? 92)%N then
        match s1 with
        | EmptyString => None
        | String e s2 =>
            if (code e =? 117)%N then
              match s2 with
              | String h1 (String h2 (String h3 (String h4 s3))) =>
                  match hex4 h1 h2 h3 h4 with
                  | Some _ => valid_chars s3
                  | None => None
                  end
              | _ => None
              end
            else
              match simple_escape e with
              | Some _ => valid_chars s2
              | None => None
              end
        end
      else if (code c <? 32)%N then None
      else valid_chars s1
  end.

(** the recognizer of JSON values, with the descent of [parse_value] *)
Fixpoint valid_value (fuel : nat) (s : string) : option string :=
  match fuel with
  | O => None
  | S f =>
      match skip_ws s with
      | EmptyString => None
      | String c s1 =>
          if (code c =? 110)%N then strip_prefix "ull" s1
          else if (code c =? 116)%N then strip_prefix "rue" s1
          else if (code c =? 102)%N then strip_prefix "alse" s1
          else if (code c =? 34)%N then valid_chars s1
          else if (code c =? 91)%N then
            match skip_ws s1 with
            | EmptyString => None
            | String c2 s2 =>
                if (code c2 =? 93)%N then Some s2 else valid_elements f s1
            end
          else if (code c =? 123)%N then
            match skip_ws s1 with
            | EmptyString => None
            | String c2 s2 =>
                if (code c2 =? 125)%N then Some s2 else valid_members f s1
            end
          else valid_number (String c s1)
      end
  end

with valid_elements (fuel : nat) (s : string) : option string :=
  match fuel with
  | O => None
  | S f =>
      match valid_value f s with
      | None => None
      | Some r =>
          match skip_ws r with
          | EmptyString => None
          | String c r1 =>
              if (code c =? 44)%N then valid_elements f r1
              else if (code c =? 93)%N then Some r1
              else None
          end
      end
  end

with valid_members (fuel : nat) (s : string) : option string :=
  match fuel with
  | O => None
  | S f =>
      match skip_ws s with
      | EmptyString => None
      | String c s1 =>
          if (code c =? 34)%N then
            match valid_chars s1 with
            | None => None
            | Some r =>
                match skip_ws r with
                | EmptyString => None
                | String c2 r1 =>
                    if (code c2 =? 58)%N then
                      match valid_value f r1 with
                      | None => None
                      | Some r2 =>
                          match skip_ws r2 with
                          | EmptyString => None
                          | String c3 r3 =>
                              if (code c3 =? 44)%N then valid_members f r3
                              else if (code c3 =? 125)%N then Some r3
                              else None
                          end
                      end
                    else None
                end
            end
          else None
      end
  end.

(** [s] is a JSON text: [JSON.parse(s)] throws no SyntaxError *)
Definition JSON_valid (s : string) : bool :=
  match valid_value (S (String.length s)) s with
  | Some r =>
      match skip_ws r with
      | EmptyString => true
      | String _ _ => false
      end
  | None => false
  end.

(** ** Exceptions *)

(** a thrown value: an [Error] instance with its [message], or any other
    value with the string [String(value)] gives for it *)
Inductive thrown : Type :=
| Error (message : string)
| Thrown (shown : string).

(** the outcome of awaited code: a value, a thrown value, or neither where
    a promise never settles *)
Inductive result (A : Type) : Type :=
| Ok (a : A)
| Throw (e : thrown)
| Unsettled.
Arguments Ok {A} a.
Arguments Throw {A} e.
Arguments Unsettled {A}.

Definition bind {A B} (m : result A) (k : A -> result B) : result B :=
  match m with
  | Ok a => k a
  | Throw e => Throw e
  | Unsettled => Unsettled
  end.

Notation "x <- m ;; k" := (bind m (fun x => k))
  (at level 61, m at next level, right associativity).

(** [try { body } catch (err) { handler(err) }] *)
Definition try_catch {A} (body : result A) (handler : thrown -> result A) : result A :=
  match body with
  | Ok a => Ok a
  | Throw err => handler err
  | Unsettled => Unsettled
  end.

(** ** Configuration *)

Record environment := {
  BIOPICS_AGENT : option string;
  BIOPICS_MODEL : option string;
  BIOPICS_USER_TOKEN : option string
}.

(** [process.env.X || fallback] *)
Definition env_or (v : option string) (fallback : string) : string :=
  match v with
  | Some s => if truthy_string s then s else fallback
  | None => fallback
  end.

Definition API_BASE : string := "https://api.biopics.ai".

Definition AGENT_NAME (env : environment) : string :=
  env_or (BIOPICS_AGENT env) "mcp-agent".
Definition MODEL_NAME (env : environment) : string :=
  env_or (BIOPICS_MODEL env) EmptyString.
Definition USER_TOKEN (env : environment) : string :=
  env_or (BIOPICS_USER_TOKEN env) EmptyString.

(** ** Helpers *)

Record content_item := { type : string; text : string }.

(** the response envelope; [isError] is [None] where the property is absent *)
Record envelope := { content : list content_item; isError : option bool }.

(** what [res.json()] gives: a value of the model, or a value outside it,
    known by the text [JSON.stringify(value, null, 2)] gives for it *)
Inductive data : Type :=
| Value (v : json)
| Foreign (stringified : string).

(** [JSON.stringify(data, null, 2)] *)
Definition stringify_data (d : data) : string :=
  match d with
  | Value v => JSON_stringify v 2
  | Foreign stringified => stringified
  end.

Definition toolResult (data : data) : envelope :=
  {| content := [ {| type := "text"; text := stringify_data data |} ];
     isError := None |}.

Definition toolError (err : thrown) : envelope :=
  let msg := match err with
             | Error message => message
             | Thrown shown => shown
             end in
  {| content := [ {| type := "text"; text := "Error: " ++ msg |} ];
     isError := Some true |}.

(** ** API client *)

Record RequestInit := {
  method : option string;
  body : option string;
  headers : option (Obj.t string)
}.

(** what [fetch] resolves to: the status, the outcome of reading the body
    and, for a body that is JSON text of a value outside the model, the text
    [JSON.stringify] gives for that value with indentation 2 (not looked at
    for any other body) *)
Record Response := {
  status : N;
  read_body : result string;
  foreign_stringified : string
}.

Definition ok (res : Response) : bool :=
  ((200 <=? status res) && (status res <=? 299))%N.

(** the world outside: what [fetch] does with a request (it may never
    settle), and the message of the SyntaxError that parsing a body raises *)
Record world := {
  fetch : string -> RequestInit -> result Response;
  syntax_error : string -> string
}.

(** [res.text()] *)
Definition Response_text (res : Response) : result string := read_body res.

(** [res.json()]: a body that is no JSON text makes it throw a SyntaxError *)
Definition Response_json (w : world) (res : Response) : result data :=
  s <- read_body res ;;
  if JSON_valid s then
    match JSON_parse s with
    | Some v => Ok (Value v)
    | None => Ok (Foreign (foreign_stringified res))
    end
  else Throw (Error (syntax_error w s)).

Section Api.
Variable env : environment.

Definition sep (path : string) : string :=
  if includes "?" path then "&" else "?".

Definition agentSuffix (path : string) : string :=
  if truthy_string (USER_TOKEN env) then EmptyString
  else sep path ++ "agent=" ++ AGENT_NAME env.

Definition api_url (path : string) : string :=
  API_BASE ++ path ++ agentSuffix path.

(** the [headers] record of [api], before the caller's are merged in *)
Definition api_headers : Obj.t string :=
  let headers := [ ("Content-Type", "application/json");
                   ("X-Agent-Name", AGENT_NAME env) ] in
  let headers := if truthy_string (MODEL_NAME env)
                 then Obj.set headers "X-Model" (MODEL_NAME env)
                 else headers in
  if truthy_string (USER_TOKEN env)
  then Obj.set headers "Authorization" ("Bearer " ++ USER_TOKEN env)
  else headers.

(** [options?.headers], spread *)
Definition options_headers (options : option RequestInit) : Obj.t string :=
  match options with
  | Some o => match headers o with Some h => h | None => [] end
  | None => []
  end.

(** [{ ...options, headers: { ...headers, ...options?.headers } }] *)
Definition api_init (options : option RequestInit) : RequestInit :=
  {| method := match options with Some o => method o | None => None end;
     body := match options with Some o => body o | None => None end;
     headers := Some (Obj.spread api_headers (options_headers options)) |}.

Variable w : world.

Definition api (path : string) (options : option RequestInit) : result data :=
  res <- fetch w (api_url path) (api_init options) ;;
  if negb (ok res) then
    body <- Response_text res ;;
    Throw (Error ("API " ++ string_of_N (status res) ++ ": " ++ body))
  else Response_json w res.
End Api.

(** ** URLSearchParams *)

Module URLSearchParams.
Definition t := Obj.t string.

Definition empty : t := [].

(** [params.set(name, value)]: the first pair of that name takes the value
    and the others of that name go; with no such pair, one is appended *)
Fixpoint set (params : t) (name value : string) : t :=
  match params with
  | [] => [(name, value)]
  | (k, v) :: rest =>
      if String.eqb k name
      then (k, value) :: filter (fun kv => negb (String.eqb (fst kv) name)) rest
      else (k, v) :: set rest name value
  end.

Definition unreserved (c : ascii) : bool :=
  let n := code c in
  (((48 <=? n) && (n <=? 57)) || ((65 <=? n) && (n <=? 90))
   || ((97 <=? n) && (n <=? 122))
   || (n =? 42) || (n =? 45) || (n =? 46) || (n =? 95))%N.

(** the application/x-www-form-urlencoded byte serializer *)
Definition encode_byte (c : ascii) : string :=
  if (code c =? 32)%N then "+"
  else if unreserved c then str1 c
  else String "%" (String (hex_digit true (code c / 16))
                     (str1 (hex_digit true (code c mod 16)))).

Fixpoint encode (s : string) : string :=
  match s with
  | EmptyString => EmptyString
  | String c s' => encode_byte c ++ encode s'
  end.

Definition pair_string (kv : string * string) : string :=
  encode (fst kv) ++ "=" ++ encode (snd kv).

(** [params.toString()] *)
Definition toString (params : t) : string :=
  String.concat "&" (map pair_string params).
End URLSearchParams.

(** ** MCP server: the tool handlers *)

Inductive priority_enum := high | medium | low.

Definition priority_string (p : priority_enum) : string :=
  match p with
  | high => "high"
  | medium => "medium"
  | low => "low"
  end.

Inductive status_enum := pending | approved | rejected | integrated | needs_revision.

Definition status_string (s : status_enum) : string :=
  match s with
  | pending => "pending"
  | approved => "approved"
  | rejected => "rejected"
  | integrated => "integrated"
  | needs_revision => "needs-revision"
  end.

(** [if (x) params.set(name, show(x))] *)
Definition set_if {A} (t : A -> bool) (show : A -> string)
    (params : URLSearchParams.t) (name : string) (x : option A) : URLSearchParams.t :=
  match x with
  | Some a => if t a then URLSearchParams.set params name (show a) else params
  | None => params
  end.

(** [`${base}${qs ? "?" + qs : ""}`] *)
Definition with_query (base qs : string) : string :=
  base ++ (if truthy_string qs then "?" ++ qs else EmptyString).

Definition id_string (s : string) : string := s.

(** the body record of submit_contribution *)
Definition submit_contribution_body (type content : string)
    (source_url : option string) (scene_id : option Z) (liberty_note : option string)
    : Obj.t json :=
  let body := [ ("type", JStr type); ("content", JStr content) ] in
  let body := match source_url with
              | Some u => if truthy_string u then Obj.set body "source_url" (JStr u) else body
              | None => body
              end in
  let body := match scene_id with
              | Some n => if truthy_number n then Obj.set body "scene_id" (JNum n) else body
              | None => body
              end in
  match liberty_note with
  | Some l => if truthy_string l then Obj.set body "liberty_note" (JStr l) else body
  | None => body
  end.

Definition submit_contribution_options (type content : string)
    (source_url : option string) (scene_id : option Z) (liberty_note : option string)
    : RequestInit :=
  {| method := Some "POST";
     body := Some (JSON_stringify
                     (JObj (submit_contribution_body type content source_url scene_id
                              liberty_note)) 0);
     headers := None |}.

Definition browse_people_params (q tag : option string) (page limit : option Z)
    : URLSearchParams.t :=
  let params := URLSearchParams.empty in
  let params := set_if truthy_string id_string params "q" q in
  let params := set_if truthy_string id_string params "tag" tag in
  let params := set_if truthy_number string_of_number params "page" page in
  set_if truthy_number string_of_number params "limit" limit.

Definition browse_people_path (q tag : option string) (page limit : option Z) : string :=
  with_query "/people" (URLSearchParams.toString (browse_people_params q tag page limit)).

Definition find_needs_params (priority : option priority_enum) (tag : option string)
    (limit : option Z) : URLSearchParams.t :=
  let params := URLSearchParams.empty in
  let params := set_if (fun p => truthy_string (priority_string p)) priority_string
                  params "priority" priority in
  let params := set_if truthy_string id_string params "tag" tag in
  set_if truthy_number string_of_number params "limit" limit.

Definition find_needs_path (priority : option priority_enum) (tag : option string)
    (limit : option Z) : string :=
  with_query "/needs" (URLSearchParams.toString (find_needs_params priority tag limit)).

Definition my_contributions_params (status : option status_enum) (type : option string)
    : URLSearchParams.t :=
  let params := URLSearchParams.empty in
  let params := set_if (fun s => truthy_string (status_string s)) status_string
                  params "status" status in
  set_if truthy_string id_string params "type" type.

Definition my_contributions_path (status : option status_enum) (type : option string)
    : string :=
  with_query "/contributions"
    (URLSearchParams.toString (my_contributions_params status type)).

Definition leaderboard_path (limit : option Z) : string :=
  "/leaderboard"
  ++ match limit with
     | Some n => if truthy_number n then "?limit=" ++ string_of_number n else EmptyString
     | None => EmptyString
     end.

Section Handlers.
Variable env : environment.
Variable w : world.

Definition get_assignment (slug : string) : result envelope :=
  try_catch
    (data <- api env w ("/assignment/" ++ slug) None ;;
     Ok (toolResult data))
    (fun err => Ok (toolError err)).

Definition submit_contribution (slug type content : string)
    (source_url : option string) (scene_id : option Z) (liberty_note : option string)
    : result envelope :=
  try_catch
    (let body := submit_contribution_body type content source_url scene_id
                   liberty_note in
     data <- api env w ("/contribute/" ++ slug)
               (Some {| method := Some "POST";
                        body := Some (JSON_stringify (JObj body) 0);
                        headers := None |}) ;;
     Ok (toolResult data))
    (fun err => Ok (toolError err)).

Definition review_person (slug : string) : result envelope :=
  try_catch
    (data <- api env w ("/review/" ++ slug) None ;;
     Ok (toolResult data))
    (fun err => Ok (toolError err)).

Definition browse_people (q tag : option string) (page limit : option Z)
    : result envelope :=
  try_catch
    (let params := browse_people_params q tag page limit in
     let qs := URLSearchParams.toString params in
     data <- api env w (with_query "/people" qs) None ;;
     Ok (toolResult data))
    (fun err => Ok (toolError err)).

Definition find_needs (priority : option priority_enum) (tag : option string)
    (limit : option Z) : result envelope :=
  try_catch
    (let params := find_needs_params priority tag limit in
     let qs := URLSearchParams.toString params in
     data <- api env w (with_query "/needs" qs) None ;;
     Ok (toolResult data))
    (fun err => Ok (toolError err)).

Definition my_contributions (status : option status_enum) (type : option string)
    : result envelope :=
  try_catch
    (let params := my_contributions_params status type in
     let qs := URLSearchParams.toString params in
     data <- api env w (with_query "/contributions" qs) None ;;
     Ok (toolResult data))
    (fun err => Ok (toolError err)).

Definition leaderboard (limit : option Z) : result envelope :=
  try_catch
    (data <- api env w (leaderboard_path limit) None ;;
     Ok (toolResult data))
    (fun err => Ok (toolError err)).

Definition check_confidence (slug : string) : result envelope :=
  try_catch
    (data <- api env w ("/confidence/" ++ slug) None ;;
     Ok (toolResult data))
    (fun err => Ok (toolError err)).
End Handlers.

(** ** MCP server: the registrations *)

Inductive zod : Type :=
| z_string
| z_number
| z_enum (values : list string).

Record parameter := {
  param_name : string;
  param_type : zod;
  optional : bool;
  describe : option string
}.

Record tool := {
  name : string;
  description : string;
  schema : list parameter
}.

Definition req (n : string) (t : zod) (d : string) : parameter :=
  {| param_name := n; param_type := t; optional := false; describe := Some d |}.
Definition opt (n : string) (t : zod) (d : string) : parameter :=
  {| param_name := n; param_type := t; optional := true; describe := Some d |}.

(** the [server.tool] calls, in source order *)
Definition tools : list tool := [
  {| name := "get_assignment";
     description := "Get your next assignment for a person's biographical documentary. Returns the current production phase, phase-specific instructions, a scene that needs work, and a template to fill. IMPORTANT: Also returns unverified facts that need source URLs — verify these by submitting a fact-check with a source_url. The API is the director — it tells you what to do based on production progress.";
     schema := [ req "slug" z_string "Person slug (e.g. 'abraham-lincoln', 'elonmusk', 'fridakahlo')" ] |};
  {| name := "submit_contribution";
     description := "Submit a contribution to a person's biographical documentary. The type must match the current production phase. Phase 3 dramatization types require a liberty_note. For IMAGE contributions: search the web for real photographs, submit type 'image' with source_url pointing to the photo URL, and content describing what the photo shows (year, context, appearance). We need lots of reference photos from different eras.";
     schema := [
       req "slug" z_string "Person slug";
       req "type" z_string
         ("Contribution type. Phase 1: research, quote, work, timeline, fact-check, biography, source, image, video. "
          ++ "Phase 2: scene, story, scene-pitch, dialogue, dramatic-beat, character-note, pacing-suggestion, act-structure. "
          ++ "Phase 3: dramatization, composite-character, invented-dialogue, creative-liberty, dramatic-irony. "
          ++ "Phase 4: storyboard-prompt, camera-direction, lighting-setup, color-palette, wardrobe-note, set-description, visual-reference, shot-list. "
          ++ "Phase 5: ambient-sound, score-mood, music-cue, sound-effect, narration-cue, sonic-palette, silence-note. "
          ++ "Phase 6: transition, pacing-note, continuity-fix, title-card, cut-order, credits.");
       req "content" z_string "The contribution content";
       opt "source_url" z_string "Verification URL (recommended for research types)";
       opt "scene_id" z_number "Scene ID when contributing to a specific scene";
       opt "liberty_note" z_string "Required for phase 3 dramatization types. Explains what was changed from verified facts and why." ] |};
  {| name := "review_person";
     description := "Get a full phase-aware review of a person's biographical documentary. Returns all existing data (quotes, works, timelines, chapters), the current production phase with progress scores, phase-specific review instructions, and scenes needing work.";
     schema := [ req "slug" z_string "Person slug" ] |};
  {| name := "browse_people";
     description := "Browse or search the 1,141 biographical entries. Filter by category tag or search by name.";
     schema := [
       opt "q" z_string "Search by name";
       opt "tag" z_string "Filter by category: Sport, Music, Film, History, Science, Art, Business, Literature";
       opt "page" z_number "Page number (default 1)";
       opt "limit" z_number "Results per page (default 50, max 100)" ] |};
  {| name := "find_needs";
     description := "Find content gaps across all people. Returns people sorted by completeness score (lowest first) with their specific needs. Use this to find the most impactful work to do.";
     schema := [
       opt "priority" (z_enum ["high"; "medium"; "low"]) "high = score <30, medium = 30-60, low = 60-80";
       opt "tag" z_string "Filter by category";
       opt "limit" z_number "Results per page (default 50)" ] |};
  {| name := "my_contributions";
     description := "List your submitted contributions and their statuses (pending, approved, rejected, integrated).";
     schema := [
       {| param_name := "status";
          param_type := z_enum ["pending"; "approved"; "rejected"; "integrated"; "needs-revision"];
          optional := true;
          describe := None |};
       opt "type" z_string "Filter by contribution type" ] |};
  {| name := "leaderboard";
     description := "View the top contributors ranked by approved contributions.";
     schema := [ opt "limit" z_number "Number of results (default 20, max 50)" ] |};
  {| name := "check_confidence";
     description := "Check the confidence/convergence stats for a person. Shows which facts have been independently verified by multiple agents, which have verified source URLs, and which are still unverified.";
     schema := [ req "slug" z_string "Person slug" ] |}
].

(** a tool invocation whose arguments passed the tool's schema; a numeric
    argument is an integer here ([z.number()] lets fractions through as
    well, which the model leaves out) *)
Inductive call : Type :=
| call_get_assignment (slug : string)
| call_submit_contribution (slug type content : string)
    (source_url : option string) (scene_id : option Z) (liberty_note : option string)
| call_review_person (slug : string)
| call_browse_people (q tag : option string) (page limit : option Z)
| call_find_needs (priority : option priority_enum) (tag : option string)
    (limit : option Z)
| call_my_contributions (status : option status_enum) (type : option string)
| call_leaderboard (limit : option Z)
| call_check_confidence (slug : string).

Definition call_name (c : call) : string :=
  match c with
  | call_get_assignment _ => "get_assignment"
  | call_submit_contribution _ _ _ _ _ _ => "submit_contribution"
  | call_review_person _ => "review_person"
  | call_browse_people _ _ _ _ => "browse_people"
  | call_find_needs _ _ _ => "find_needs"
  | call_my_contributions _ _ => "my_contributions"
  | call_leaderboard _ => "leaderboard"
  | call_check_confidence _ => "check_confidence"
  end.

(** the handler registered under the tool's name, applied to the arguments *)
Definition dispatch (env : environment) (w : world) (c : call) : result envelope :=
  match c with
  | call_get_assignment slug => get_assignment env w slug
  | call_submit_contribution slug type content source_url scene_id liberty_note =>
      submit_contribution env w slug type content source_url scene_id liberty_note
  | call_review_person slug => review_person env w slug
  | call_browse_people q tag page limit => browse_people env w q tag page limit
  | call_find_needs priority tag limit => find_needs env w priority tag limit
  | call_my_contributions status type => my_contributions env w status type
  | call_leaderboard limit => leaderboard env w limit
  | call_check_confidence slug => check_confidence env w slug
  end.

(** the path and the options a call hands to [api] *)
Definition call_path (c : call) : string :=
  match c with
  | call_get_assignment slug => "/assignment/" ++ slug
  | call_submit_contribution slug _ _ _ _ _ => "/contribute/" ++ slug
  | call_review_person slug => "/review/" ++ slug
  | call_browse_people q tag page limit => browse_people_path q tag page limit
  | call_find_needs priority tag limit => find_needs_path priority tag limit
  | call_my_contributions status type => my_contributions_path status type
  | call_leaderboard limit => leaderboard_path limit
  | call_check_confidence slug => "/confidence/" ++ slug
  end.

Definition call_options (c : call) : option RequestInit :=
  match c with
  | call_submit_contribution _ type content source_url scene_id liberty_note =>
      Some (submit_contribution_options type content source_url scene_id liberty_note)
  | _ => None
  end.

(** the request a call puts on the wire *)
Definition call_url (env : environment) (c : call) : string :=
  api_url env (call_path c).
Definition call_init (env : environment) (c : call) : RequestInit :=
  api_init env (call_options c).

(** ** What becomes of the outcome of a request *)

(** what [api] makes of the outcome of its [fetch] *)
Definition api_settle (w : world) (r : result Response) : result data :=
  res <- r ;;
  if negb (ok res) then
    body <- Response_text res ;;
    Throw (Error ("API " ++ string_of_N (status res) ++ ": " ++ body))
  else Response_json w res.

(** what a handler makes of it, through [api] *)
Definition settle (w : world) (r : result Response) : result envelope :=
  try_catch (data <- api_settle w r ;; Ok (toolResult data))
            (fun err => Ok (toolError err)).

(** the method [fetch] uses: GET where the options name none *)
Definition http_method (init : RequestInit) : string :=
  match method init with
  | Some m => m
  | None => "GET"
  end.

(** the header a request has under the name [k] when the caller of [api]
    supplies none: Content-Type and X-Agent-Name always, X-Model and
    Authorization when configured, no other *)
Definition default_header (env : environment) (k : string) : option string :=
  if String.eqb k "Content-Type" then Some "application/json"
  else if String.eqb k "X-Agent-Name" then Some (AGENT_NAME env)
  else if String.eqb k "X-Model"
  then (if truthy_string (MODEL_NAME env) then Some (MODEL_NAME env) else None)
  else if String.eqb k "Authorization"
  then (if truthy_string (USER_TOKEN env) then Some ("Bearer " ++ USER_TOKEN env)
        else None)
  else None.

(** name, and for each parameter its name, its type and whether it is
    optional *)
Definition typed_schema (t : tool) : string * list (string * zod * bool) :=
  (name t, map (fun p => (param_name p, param_type p, optional p)) (schema t)).

(** ** Reading a request back *)

(** [s.split(c)] *)
Fixpoint split_on (c : ascii) (s : string) : list string :=
  match s with
  | EmptyString => [EmptyString]
  | String a s' =>
      if Ascii.eqb a c then EmptyString :: split_on c s'
      else match split_on c s' with
           | h :: t => String a h :: t
           | [] => [str1 a]
           end
  end.

(** the part of [s] before the first [c] *)
Definition before (c : ascii) (s : string) : string :=
  hd EmptyString (split_on c s).

(** the part of [s] after the first [c], if there is one *)
Fixpoint after_first (c : ascii) (s : string) : option string :=
  match s with
  | EmptyString => None
  | String a s' => if Ascii.eqb a c then Some s' else after_first c s'
  end.

(** the form decoder: "+" is a space and "%XY" the byte XY; a "%" that no
    two hexadecimal digits follow stands for itself *)
Fixpoint form_decode (s : string) : string :=
  match s with
  | EmptyString => EmptyString
  | String c s1 =>
      if (code c =? 43)%N then String " " (form_decode s1)
      else if (code c =? 37)%N then
        match s1 with
        | String h1 (String h2 s2) =>
            match hex_value h1, hex_value h2 with
            | Some x, Some y => String (chr (x * 16 + y)) (form_decode s2)
            | _, _ => String c (form_decode s1)
            end
        | _ => String c (form_decode s1)
        end
      else String c (form_decode s1)
  end.

(** the name and the value of one "&"-separated piece: the name is what
    stands before the first "=", the value what follows it *)
Definition form_pair (piece : string) : string * string :=
  (form_decode (before "=" piece),
   form_decode (match after_first "=" piece with
                | Some v => v
                | None => EmptyString
                end)).

(** the query string of a URL or of a path: what stands between the first
    "?" and the fragment, which the first "#" opens; the text is read as it
    is written *)
Definition query_string (path : string) : option string :=
  after_first "?" (before "#" path).

(** the name-value pairs of the query string, as the form parser reads
    them; empty pieces are skipped *)
Definition query_pairs (path : string) : list (string * string) :=
  match query_string path with
  | None => []
  | Some qs => map form_pair (filter truthy_string (split_on "&" qs))
  end.

(** the keys of the query string *)
Definition query_keys (path : string) : list string :=
  map fst (query_pairs path).

Definition keep (b : bool) (k : string) : list string :=
  if b then [k] else [].

(** the optional argument was given *)
Definition supplied {A} (o : option A) : bool :=
  match o with Some _ => true | None => false end.

(** every character of [s] satisfies [p] *)
Fixpoint all_chars (p : ascii -> bool) (s : string) : bool :=
  match s with
  | EmptyString => true
  | String c s' => p c && all_chars p s'
  end.

(** the characters the form serializer and [String(n)] put out *)
Definition url_safe (c : ascii) : bool :=
  URLSearchParams.unreserved c || (code c =? 43)%N || (code c =? 37)%N.

(** the slug a path-parameterized call carries *)
Definition call_slug (c : call) : option string :=
  match c with
  | call_get_assignment slug
  | call_submit_contribution slug _ _ _ _ _
  | call_review_person slug
  | call_check_confidence slug => Some slug
  | _ => None
  end.

(** the number of "?" in the slug of a call, 0 where it has none *)
Definition slug_question_marks (c : call) : nat :=
  match call_slug c with
  | Some slug => count_char "?" slug
  | None => 0
  end.

(** name, required parameters, optional parameters *)
Definition signature (t : tool) : string * list string * list string :=
  (name t,
   map param_name (filter (fun p => negb (optional p)) (schema t)),
   map param_name (filter optional (schema t))).

(** ** Reading an envelope *)

Definition is_success (e : envelope) : Prop :=
  exists payload, e = {| content := [ {| type := "text"; text := payload |} ];
                         isError := None |}.

Definition is_error (e : envelope) : Prop :=
  exists message, e = {| content := [ {| type := "text"; text := "Error: " ++ message |} ];
                         isError := Some true |}.

(** the text of the one content item of an envelope *)
Definition envelope_text (e : envelope) : string :=
  match content e with
  | [ item ] => text item
  | _ => EmptyString
  end.

(** ** Values that [JSON.parse] produces *)

(** no object has two properties of the same name or a name of digits
    only, and every number is a safe integer *)
Inductive json_wf : json -> Prop :=
| wf_null : json_wf JNull
| wf_bool b : json_wf (JBool b)
| wf_num n : safe_integer n = true -> json_wf (JNum n)
| wf_str s : json_wf (JStr s)
| wf_arr items : Forall json_wf items -> json_wf (JArr items)
| wf_obj members :
    NoDup (map fst members) ->
    Forall (fun kv => index_like (fst kv) = false /\ json_wf (snd kv)) members ->
    json_wf (JObj members).

Definition members_wf (ms : Obj.t json) : Prop :=
  NoDup (map fst ms)
  /\ Forall (fun kv => index_like (fst kv) = false /\ json_wf (snd kv)) ms.

(** the number of calls the parser nests to read a value back *)
Fixpoint size (v : json) : nat :=
  match v with
  | JArr items => S (fold_right (fun x n => S (size x) + n) 0 items)
  | JObj members => S (fold_right (fun kv n => S (size (snd kv)) + n) 0 members)
  | _ => 1
  end.

(** only white space *)
Fixpoint all_ws (s : string) : bool :=
  match s with
  | EmptyString => true
  | String c s' => is_ws c && all_ws s'
  end.

(** what may follow a value inside a serialized text *)
Definition delimited (s : string) : bool :=
  match s with
  | EmptyString => true
  | String c _ =>
      is_ws c || (code c =? 44)%N || (code c =? 93)%N || (code c =? 125)%N
  end.

(** the white space [json_wrap] puts after the opening bracket and between
    the elements, and the one before the closing bracket *)
Definition inner_ws (gap indent : string) : string :=
  if truthy_string gap then newline ++ indent else EmptyString.

(** [v] is read back from its serialization, whatever the indentation and
    whatever delimiter follows, by a parser with fuel for its size *)
Definition reads_back (v : json) : Prop :=
  forall gap indent rest fuel,
    all_ws gap = true -> all_ws indent = true -> delimited rest = true ->
    size v <= fuel ->
    parse_value fuel (serialize gap indent v ++ rest) = Some (v, rest).

(** ** Sample environments, worlds and responses *)

(** no variable is set: the defaults apply *)
Definition default_environment : environment :=
  {| BIOPICS_AGENT := None; BIOPICS_MODEL := None; BIOPICS_USER_TOKEN := None |}.

(** an environment with a bearer token *)
Definition token_environment : environment :=
  {| BIOPICS_AGENT := None; BIOPICS_MODEL := None; BIOPICS_USER_TOKEN := Some "jwt" |}.

(** a world whose endpoint never answers *)
Definition world_unsettled : world :=
  {| fetch := fun _ _ => Unsettled;
     syntax_error := fun _ => "Unexpected token in JSON" |}.

(** a world whose endpoint answers every request with [res] *)
Definition world_answering (res : Response) : world :=
  {| fetch := fun _ _ => Ok res;
     syntax_error := fun _ => "Unexpected token in JSON" |}.

Definition not_found : Response :=
  {| status := 404; read_body := Ok "not found"; foreign_stringified := EmptyString |}.

(** a page of people, as the endpoint may return it *)
Definition people_page : json :=
  JObj [ ("people", JArr [ JObj [ ("slug", JStr "frida-kahlo"); ("score", JNum 42) ];
                           JObj [ ("slug", JStr "abraham-lincoln"); ("score", JNum 0) ] ]);
         ("total", JNum 1141);
         ("next", JNull) ].

Definition people_response : Response :=
  {| status := 200; read_body := Ok (JSON_stringify people_page 0);
     foreign_stringified := EmptyString |}.

(** ** Reading a query string back *)

(** neither a control character nor a space: a URL parser drops tabs and
    line breaks wherever they stand, and control characters and spaces at
    both ends *)
Definition graphic (c : ascii) : bool := (32 <? code c)%N.

(** [[(k, show x)]] where the optional argument [x] is truthy *)
Definition keep_pair {A} (t : A -> bool) (show : A -> string) (k : string)
    (x : option A) : list (string * string) :=
  match x with
  | Some a => if t a then [(k, show a)] else []
  | None => []
  end.

(** ** Settings *)

(** a variable set to the empty string, taken for unset *)
Definition unset_empty (v : option string) : option string :=
  match v with
  | Some s => if truthy_string s then Some s else None
  | None => None
  end.

Definition normalize (env : environment) : environment :=
  {| BIOPICS_AGENT := unset_empty (BIOPICS_AGENT env);
     BIOPICS_MODEL := unset_empty (BIOPICS_MODEL env);
     BIOPICS_USER_TOKEN := unset_empty (BIOPICS_USER_TOKEN env) |}.

(** a world whose endpoint answers with [res] at [url] and is out of reach
    elsewhere *)
Definition world_answering_at (url : string) (res : Response) : world :=
  {| fetch := fun u _ => if String.eqb u url then Ok res
                         else Throw (Error "fetch failed");
     syntax_error := fun _ => "Unexpected token in JSON" |}.

(** ** Reading an error text back *)

(** the status and the body in the text of an error envelope that reports a
    status: "Error: API ", the digits of the status, ": ", the body *)
Definition read_api_error (text : string) : option (N * string) :=
  match strip_prefix "Error: API " text with
  | None => None
  | Some r =>
      let (d, r') := read_digits r in
      match d, strip_prefix ": " r' with
      | Nil, _ => None
      | _, Some b => Some (N.of_uint d, b)
      | _, None => None
      end
  end.

(** an optional number is absent or a safe integer *)
Definition safe_opt (o : option Z) : bool :=
  match o with
  | Some n => safe_integer n
  | None => true
  end.

(** the value an optional argument gives its field of the body *)
Definition body_field {A} (t : A -> bool) (inj : A -> json) (x : option A) : option json :=
  match x with
  | Some a => if t a then Some (inj a) else None
  | None => None
  end.

(** * Lemmas on the platform *)

(** ** Strings *)

Lemma append_nil_r (s : string) : s ++ EmptyString = s.
Proof. induction s; simpl; congruence. Qed.

Lemma append_assoc (a b c : string) : (a ++ b) ++ c = a ++ b ++ c.
Proof. induction a; simpl; congruence. Qed.

Lemma length_append (a b : string) :
  String.length (a ++ b) = String.length a + String.length b.
Proof. induction a; simpl; congruence. Qed.

Lemma count_char_app (c : ascii) (a b : string) :
  count_char c (a ++ b) = count_char c a + count_char c b.
Proof. induction a; simpl; lia. Qed.

Lemma prefix_app (p s : string) : String.prefix p (p ++ s) = true.
Proof.
  induction p as [|a p IH]; simpl.
  - now destruct s.
  - destruct (ascii_dec a a); [exact IH | congruence].
Qed.

Lemma includes_app_r (sub a b : string) :
  includes sub b = true -> includes sub (a ++ b) = true.
Proof.
  intros H. induction a as [|x a IH]; simpl; [exact H|].
  rewrite IH. apply orb_true_r.
Qed.

Lemma includes_prefix (sub s : string) :
  String.prefix sub s = true -> includes sub s = true.
Proof. destruct s; simpl; intros ->; reflexivity. Qed.

Lemma includes_refl (s : string) : includes s s = true.
Proof.
  apply includes_prefix. rewrite <- (append_nil_r s) at 2. apply prefix_app.
Qed.

Lemma includes_here (sub a b : string) : includes sub (a ++ sub ++ b) = true.
Proof. apply includes_app_r, includes_prefix, prefix_app. Qed.

(** [includes "?"] looks for one character *)
Lemma includes_char (c : ascii) (s : string) :
  includes (String c EmptyString) s = negb (Nat.eqb (count_char c s) 0).
Proof.
  induction s as [|a s IH]; [reflexivity|].
  unfold includes; fold includes. rewrite IH. simpl.
  destruct (ascii_dec c a) as [->|N].
  - rewrite Ascii.eqb_refl. simpl. now destruct s.
  - assert (E : Ascii.eqb a c = false) by (apply Ascii.eqb_neq; congruence).
    rewrite E. reflexivity.
Qed.

(** ** Plain objects *)

Lemma get_set {V} (o : Obj.t V) (k x : string) (v : V) :
  Obj.get (Obj.set o k v) x = if String.eqb k x then Some v else Obj.get o x.
Proof.
  induction o as [|[k' v'] o IH]; simpl.
  - reflexivity.
  - destruct (String.eqb_spec k' k) as [->|N]; simpl.
    + destruct (String.eqb k x); reflexivity.
    + rewrite IH. destruct (String.eqb_spec k' x) as [->|N']; [|reflexivity].
      destruct (String.eqb_spec k x) as [->|_]; [congruence | reflexivity].
Qed.

Lemma get_app {V} (a b : Obj.t V) (x : string) :
  Obj.get (a ++ b)%list x = match Obj.get a x with
                       | Some v => Some v
                       | None => Obj.get b x
                       end.
Proof.
  induction a as [|[k v] a IH]; simpl; [reflexivity|].
  destruct (String.eqb k x); [reflexivity | exact IH].
Qed.

(** in [{...a, ...b}] the last value [b] gives for a key wins, and the keys
    [b] does not have keep the value of [a] *)
Lemma get_spread {V} (a b : Obj.t V) (x : string) :
  Obj.get (Obj.spread a b) x = match Obj.get (List.rev b) x with
                               | Some v => Some v
                               | None => Obj.get a x
                               end.
Proof.
  unfold Obj.spread. revert a.
  induction b as [|[k v] b IH]; intros a; simpl; [reflexivity|].
  rewrite IH, get_app, get_set. simpl.
  destruct (Obj.get (List.rev b) x); [reflexivity|].
  destruct (String.eqb k x); reflexivity.
Qed.

Lemma keys_set {V} (o : Obj.t V) (k : string) (v : V) :
  Obj.keys (Obj.set o k v)
  = if in_dec string_dec k (Obj.keys o) then Obj.keys o else (Obj.keys o ++ [k])%list.
Proof.
  unfold Obj.keys.
  induction o as [|[k' v'] o IH]; simpl; [reflexivity|].
  destruct (String.eqb_spec k' k) as [->|N]; simpl.
  - destruct (string_dec k k); [reflexivity | congruence].
  - destruct (string_dec k' k); [congruence|].
    rewrite IH.
    destruct (in_dec string_dec k (map fst o)); reflexivity.
Qed.


(** ** JSON: reading back what [JSON.stringify] wrote *)

(** *** Strings *)

Lemma parse_chars_quote_char (c : ascii) (tail : string) :
  parse_chars (quote_char c ++ tail) = prepend (str1 c) (parse_chars tail).
Proof. destruct c as [[] [] [] [] [] [] [] []]; reflexivity. Qed.

Lemma parse_chars_quote_chars (s rest : string) :
  parse_chars (quote_chars s ++ String dquote rest) = Some (s, rest).
Proof.
  induction s as [|c s IH]; [reflexivity|].
  simpl quote_chars. rewrite append_assoc, parse_chars_quote_char, IH.
  reflexivity.
Qed.

Lemma quote_json_string_app (s rest : string) :
  quote_json_string s ++ rest = String dquote (quote_chars s ++ String dquote rest).
Proof. unfold quote_json_string. simpl. now rewrite append_assoc. Qed.

(** *** Numbers *)

Lemma delimited_no_digit (rest : string) :
  delimited rest = true -> read_digits rest = (Nil, rest).
Proof.
  destruct rest as [|c rest]; [reflexivity|].
  destruct c as [[] [] [] [] [] [] [] []]; (discriminate || reflexivity).
Qed.

Lemma delimited_no_fraction (rest : string) :
  delimited rest = true -> starts_fraction rest = false.
Proof.
  destruct rest as [|c rest]; [reflexivity|].
  destruct c as [[] [] [] [] [] [] [] []]; (discriminate || reflexivity).
Qed.

Lemma read_digits_string (d : uint) (rest : string) :
  delimited rest = true -> read_digits (string_of_digits d ++ rest) = (d, rest).
Proof.
  intros H. induction d; simpl; try (rewrite IHd; reflexivity).
  now apply delimited_no_digit.
Qed.

Lemma to_uint_pos_head (p : positive) :
  N.to_uint (Npos p) <> Nil /\ forall d, N.to_uint (Npos p) <> D0 d.
Proof.
  pose proof (DecimalN.Unsigned.to_of (N.to_uint (Npos p))) as E.
  rewrite DecimalN.Unsigned.of_to in E.
  assert (Z : nzhead (N.to_uint (Npos p)) <> Nil).
  { intros Hn. apply unorm_0 in Hn. rewrite Hn in E.
    pose proof (DecimalN.Unsigned.of_to (Npos p)) as O.
    rewrite E in O. discriminate O. }
  rewrite (unorm_nzhead _ Z) in E. split.
  - intros Hn. rewrite Hn in Z. now apply Z.
  - intros d Hd. rewrite E in Hd. now apply nzhead_nonzero in Hd.
Qed.

Lemma parse_int_nonzero (c : ascii) (s : string) :
  (code c =? 48)%N = false -> digit_of_char c <> None ->
  parse_int (String c s)
  = let (d, r) := read_digits (String c s) in Some (N.of_uint d, r).
Proof.
  intros E D. unfold parse_int. rewrite E.
  destruct (digit_of_char c); congruence.
Qed.

Lemma parse_int_pos (p : positive) (rest : string) :
  delimited rest = true ->
  parse_int (string_of_N (Npos p) ++ rest) = Some (Npos p, rest)
  /\ exists c s, string_of_N (Npos p) = String c s /\ (code c =? 45)%N = false.
Proof.
  intros H. unfold string_of_N.
  destruct (to_uint_pos_head p) as [Hn H0].
  pose proof (read_digits_string (N.to_uint (Npos p)) rest H) as R.
  rewrite <- (DecimalN.Unsigned.of_to (Npos p)) at 2.
  destruct (N.to_uint (Npos p)) as [|d|d|d|d|d|d|d|d|d|d];
    [congruence | now elim (H0 d) | ..];
    (split; [| eexists; eexists; split; reflexivity]);
    cbn [string_of_digits append] in *;
    (rewrite parse_int_nonzero, R; [reflexivity | reflexivity | discriminate]).
Qed.

Lemma parse_number_roundtrip (n : Z) (rest : string) :
  safe_integer n = true -> delimited rest = true ->
  parse_number (string_of_number n ++ rest) = Some (n, rest).
Proof.
  intros S H. pose proof (delimited_no_fraction rest H) as F.
  destruct n as [|p|p]; simpl string_of_number.
  - simpl. now rewrite F.
  - destruct (parse_int_pos p rest H) as (P & c & s & E & M).
    revert P. rewrite E. simpl append. intros P.
    unfold parse_number. rewrite M, P, F.
    change (Z.of_N (Npos p)) with (Zpos p). now rewrite S.
  - destruct (parse_int_pos p rest H) as (P & _).
    simpl append. unfold parse_number.
    change (code "-" =? 45)%N with true. cbv iota. rewrite P, F.
    change (Z.opp (Z.of_N (Npos p))) with (Zneg p). now rewrite S.
Qed.

Lemma parse_number_safe (s : string) (n : Z) (r : string) :
  parse_number s = Some (n, r) -> safe_integer n = true.
Proof.
  unfold parse_number. destruct s as [|c s]; [discriminate|].
  destruct (if (code c =? 45)%N then _ else _) as [[z r']|]; [|discriminate].
  destruct (starts_fraction r'); [discriminate|].
  destruct (safe_integer z) eqn:E; [|discriminate].
  intros H. injection H as <- _. exact E.
Qed.

(** the first character of a number is a digit or the minus sign *)
Lemma number_head (n : Z) :
  exists c s, string_of_number n = String c s
              /\ ((code c =? 45) || ((48 <=? code c) && (code c <=? 57)))%N = true.
Proof.
  destruct n as [|p|p].
  - exists "0"%char, EmptyString. split; reflexivity.
  - unfold string_of_number, string_of_N.
    destruct (to_uint_pos_head p) as [Hn _].
    destruct (N.to_uint (Npos p)); [congruence | ..];
      (eexists; eexists; split; reflexivity).
  - exists "-"%char, (string_of_N (Npos p)). split; reflexivity.
Qed.

(** *** White space *)

Lemma skip_ws_app (pre s : string) : all_ws pre = true -> skip_ws (pre ++ s) = skip_ws s.
Proof.
  induction pre as [|c pre IH]; simpl; [reflexivity|].
  intros H. apply andb_true_iff in H. destruct H as [-> H]. now apply IH.
Qed.

Lemma all_ws_app (a b : string) : all_ws (a ++ b) = (all_ws a && all_ws b)%bool.
Proof. induction a; simpl; [reflexivity|]. rewrite IHa. apply andb_assoc. Qed.

Lemma all_ws_spaces (n : nat) : all_ws (spaces n) = true.
Proof. induction n; simpl; auto. Qed.

Lemma parse_value_skip (f : nat) (pre s : string) :
  all_ws pre = true -> parse_value f (pre ++ s) = parse_value f s.
Proof. intros H. destruct f; simpl; [reflexivity|]. now rewrite skip_ws_app. Qed.

(** *** Values *)

Lemma json_induction (P : json -> Prop) :
  P JNull -> (forall b, P (JBool b)) -> (forall n, P (JNum n)) ->
  (forall s, P (JStr s)) ->
  (forall items, Forall P items -> P (JArr items)) ->
  (forall members, Forall (fun kv => P (snd kv)) members -> P (JObj members)) ->
  forall v, P v.
Proof.
  intros Hnull Hbool Hnum Hstr Harr Hobj.
  fix IH 1. intros [ |b|n|s|items|members].
  - exact Hnull.
  - apply Hbool.
  - apply Hnum.
  - apply Hstr.
  - apply Harr. induction items as [|x items IHl]; constructor; [apply IH | exact IHl].
  - apply Hobj. induction members as [|kv members IHl]; constructor;
      [apply IH | exact IHl].
Qed.

Lemma json_wrap_nonempty (o c gap stepback indent : string) (partial : list string) :
  partial <> [] ->
  json_wrap o c gap stepback indent partial
  = o ++ inner_ws gap indent
      ++ String.concat (String "," (inner_ws gap indent)) partial
      ++ inner_ws gap stepback ++ c.
Proof.
  intros H. unfold json_wrap, inner_ws.
  destruct partial as [|p partial]; [congruence|].
  destruct (truthy_string gap); [|reflexivity].
  now rewrite (append_assoc newline indent), (append_assoc newline stepback).
Qed.

Lemma all_ws_inner (gap indent : string) :
  all_ws indent = true -> all_ws (inner_ws gap indent) = true.
Proof. intros H. unfold inner_ws. destruct (truthy_string gap); simpl; auto. Qed.

Lemma delimited_close (W : string) (c : ascii) (s : string) :
  all_ws W = true ->
  ((code c =? 44) || (code c =? 93) || (code c =? 125))%N = true ->
  delimited (W ++ String c s) = true.
Proof.
  intros HW Hc. destruct W as [|a W]; simpl in *.
  - rewrite <- !orb_assoc. rewrite <- !orb_assoc in Hc. rewrite Hc. apply orb_true_r.
  - apply andb_true_iff in HW. destruct HW as [-> _]. reflexivity.
Qed.

Lemma spread_fresh {V} (a ms : Obj.t V) :
  NoDup (map fst (a ++ ms)%list) -> Obj.spread a ms = (a ++ ms)%list.
Proof.
  revert a. induction ms as [|[k v] ms IH]; intros a H.
  - now rewrite List.app_nil_r.
  - unfold Obj.spread in *. simpl.
    assert (F : Obj.set a k v = (a ++ [(k, v)])%list).
    { rewrite map_app in H. simpl in H. apply NoDup_remove_2 in H.
      assert (N : ~ In k (map fst a)) by (intros I; apply H, in_or_app; now left).
      clear -N. induction a as [|[k' v'] a IHa]; simpl; [reflexivity|].
      destruct (String.eqb_spec k' k) as [->|_]; [elim N; now left|].
      rewrite IHa; [reflexivity|]. intros I. apply N. now right. }
    rewrite F, IH; rewrite <- List.app_assoc; [reflexivity | exact H].
Qed.

(** a serialized value starts with a character that is neither white space
    nor a closing bracket *)
Lemma serialize_head (v : json) (gap indent tail : string) :
  exists c s, serialize gap indent v ++ tail = String c s
              /\ is_ws c = false
              /\ (code c =? 93)%N = false /\ (code c =? 125)%N = false.
Proof.
  destruct v as [ |[]|n|x|items|members]; simpl serialize.
  - do 2 eexists. split; [reflexivity|]. repeat split.
  - do 2 eexists. split; [reflexivity|]. repeat split.
  - do 2 eexists. split; [reflexivity|]. repeat split.
  - destruct (number_head n) as (c & s & -> & H).
    do 2 eexists. split; [reflexivity|].
    destruct c as [[] [] [] [] [] [] [] []]; try discriminate H; repeat split.
  - rewrite quote_json_string_app. do 2 eexists. split; [reflexivity|]. repeat split.
  - unfold json_wrap. destruct (map _ items); [|destruct (truthy_string gap)];
      (do 2 eexists; split; [reflexivity|]; repeat split).
  - unfold json_wrap. destruct (map _ members); [|destruct (truthy_string gap)];
      (do 2 eexists; split; [reflexivity|]; repeat split).
Qed.

Lemma skip_ws_head (c : ascii) (s : string) :
  is_ws c = false -> skip_ws (String c s) = String c s.
Proof. intros H. simpl. now rewrite H. Qed.

Lemma parse_value_number (f : nat) (n : Z) (rest : string) :
  safe_integer n = true -> delimited rest = true ->
  parse_value (S f) (string_of_number n ++ rest) = Some (JNum n, rest).
Proof.
  intros S H. pose proof (parse_number_roundtrip n rest S H) as P.
  destruct (number_head n) as (c & s & E & Hc). rewrite E in *.
  cbn [append] in *.
  destruct c as [[] [] [] [] [] [] [] []]; try discriminate Hc;
    cbn -[parse_number]; rewrite P; reflexivity.
Qed.

Lemma elements_roundtrip (items : list json) :
  items <> [] -> Forall reads_back items ->
  forall gap indent W1 W0 rest f,
    all_ws gap = true -> all_ws indent = true ->
    all_ws W1 = true -> all_ws W0 = true ->
    fold_right (fun x n => S (size x) + n) 0 items <= f ->
    parse_elements f
      (W1 ++ String.concat (String "," W1) (map (serialize gap indent) items)
          ++ W0 ++ String "]" rest)
    = Some (items, rest).
Proof.
  induction items as [|v items IH]; [congruence|].
  intros _ HF gap indent W1 W0 rest f Hg Hi H1 H0 Hf.
  inversion HF as [|? ? Hv Hitems]; subst.
  destruct f as [|f]; [simpl in Hf; lia|].
  simpl in Hf.
  destruct items as [|v2 items].
  - cbn [map String.concat parse_elements].
    rewrite parse_value_skip by assumption.
    rewrite (Hv gap indent (W0 ++ String "]" rest) f); try assumption; try lia.
    + rewrite skip_ws_app by assumption. reflexivity.
    + now apply delimited_close.
  - change (String.concat (String "," W1) (map (serialize gap indent) (v :: v2 :: items)))
      with (serialize gap indent v
            ++ String "," (W1 ++ String.concat (String "," W1)
                                   (map (serialize gap indent) (v2 :: items)))).
    cbn [parse_elements].
    rewrite parse_value_skip by assumption.
    rewrite (append_assoc (serialize gap indent v)). cbn [append].
    rewrite (append_assoc W1).
    rewrite (Hv gap indent _ f); try assumption; try lia; [|reflexivity].
    rewrite skip_ws_head by reflexivity.
    change (code "," =? 44)%N with true. cbv iota.
    rewrite IH; try assumption; [reflexivity | discriminate | simpl in Hf |- *; lia].
Qed.

Lemma json_member_app (gap k sv tail : string) :
  json_member gap k sv ++ tail
  = String dquote
      (quote_chars k
       ++ String dquote
            (String ":" ((if truthy_string gap then " " else EmptyString) ++ sv ++ tail))).
Proof.
  unfold json_member. rewrite append_assoc, quote_json_string_app.
  cbn [append]. now rewrite append_assoc.
Qed.

Lemma members_roundtrip (ms : Obj.t json) :
  ms <> [] ->
  Forall (fun kv => index_like (fst kv) = false /\ reads_back (snd kv)) ms ->
  forall gap indent W1 W0 rest f acc,
    all_ws gap = true -> all_ws indent = true ->
    all_ws W1 = true -> all_ws W0 = true ->
    fold_right (fun kv n => S (size (snd kv)) + n) 0 ms <= f ->
    parse_members f
      (W1 ++ String.concat (String "," W1)
               (map (fun kv => json_member gap (fst kv) (serialize gap indent (snd kv)))
                    ms)
          ++ W0 ++ String "}" rest) acc
    = Some (Obj.spread acc ms, rest).
Proof.
  induction ms as [|[k v] ms IH]; [congruence|].
  intros _ HF gap indent W1 W0 rest f acc Hg Hi H1 H0 Hf.
  inversion HF as [|? ? [Hk Hv] Hms]; subst. simpl fst in Hk. simpl snd in Hv.
  destruct f as [|f]; [simpl in Hf; lia|].
  assert (Hsp : all_ws (if truthy_string gap then " " else EmptyString) = true)
    by (destruct (truthy_string gap); reflexivity).
  destruct ms as [|kv2 ms].
  - cbn [map String.concat parse_members fst snd].
    rewrite skip_ws_app by assumption.
    rewrite json_member_app.
    rewrite skip_ws_head by reflexivity.
    change (code dquote =? 34)%N with true. cbv iota.
    rewrite parse_chars_quote_chars.
    rewrite skip_ws_head by reflexivity.
    rewrite Hk. change (code ":" =? 58)%N with true. cbv iota.
    rewrite parse_value_skip by assumption.
    rewrite (Hv gap indent (W0 ++ String "}" rest) f); try assumption.
    + rewrite skip_ws_app by assumption. reflexivity.
    + now apply delimited_close.
    + simpl in Hf. lia.
  - change (String.concat (String "," W1)
              (map (fun kv => json_member gap (fst kv) (serialize gap indent (snd kv)))
                   ((k, v) :: kv2 :: ms)))
      with (json_member gap k (serialize gap indent v)
            ++ String "," (W1 ++ String.concat (String "," W1)
                 (map (fun kv => json_member gap (fst kv) (serialize gap indent (snd kv)))
                      (kv2 :: ms)))).
    cbn [parse_members].
    rewrite skip_ws_app by assumption.
    rewrite (append_assoc (json_member gap k (serialize gap indent v))).
    cbn [append]. rewrite (append_assoc W1).
    rewrite json_member_app.
    rewrite skip_ws_head by reflexivity.
    change (code dquote =? 34)%N with true. cbv iota.
    rewrite parse_chars_quote_chars.
    rewrite skip_ws_head by reflexivity.
    rewrite Hk. change (code ":" =? 58)%N with true. cbv iota.
    rewrite parse_value_skip by assumption.
    rewrite (Hv gap indent _ f); try assumption; [|reflexivity | simpl in Hf; lia].
    rewrite skip_ws_head by reflexivity.
    change (code "," =? 44)%N with true. cbv iota.
    rewrite IH; try assumption; [reflexivity | discriminate | simpl in Hf |- *; lia].
Qed.

Lemma elements_head (gap indent sep tail : string) (v : json) (items : list json) :
  exists c s,
    String.concat sep (map (serialize gap indent) (v :: items)) ++ tail = String c s
    /\ is_ws c = false /\ (code c =? 93)%N = false.
Proof.
  cbn [map String.concat].
  destruct (map (serialize gap indent) items).
  - destruct (serialize_head v gap indent tail) as (c & s & E & Hc & H & _).
    now exists c, s.
  - rewrite append_assoc.
    destruct (serialize_head v gap indent ((sep ++ String.concat sep (s :: l)) ++ tail))
      as (c & x & E & Hc & H & _).
    now exists c, x.
Qed.

Lemma members_head (gap indent sep tail : string) (kv : string * json)
    (ms : Obj.t json) :
  exists s,
    String.concat sep
      (map (fun kv => json_member gap (fst kv) (serialize gap indent (snd kv)))
           (kv :: ms)) ++ tail
    = String dquote s.
Proof.
  cbn [map String.concat].
  destruct (map _ ms).
  - rewrite json_member_app. eexists. reflexivity.
  - rewrite append_assoc, json_member_app. eexists. reflexivity.
Qed.

(** every value without duplicate keys is read back *)
Lemma parse_serialize (v : json) : json_wf v -> reads_back v.
Proof.
  induction v as [ |b|n|s|items IH|members IH] using json_induction;
    intros Hwf gap indent rest f Hg Hi Hr Hf;
    (destruct f as [|f]; [simpl in Hf; lia|]).
  - reflexivity.
  - destruct b; reflexivity.
  - inversion Hwf; subst. now apply parse_value_number.
  - simpl serialize. rewrite quote_json_string_app.
    cbn [parse_value]. rewrite skip_ws_head by reflexivity.
    change (code dquote =? 110)%N with false.
    change (code dquote =? 116)%N with false.
    change (code dquote =? 102)%N with false.
    change (code dquote =? 34)%N with true. cbv iota.
    now rewrite parse_chars_quote_chars.
  - inversion Hwf as [| | | |? Hitems|]; subst.
    assert (HF : Forall reads_back items).
    { clear -IH Hitems. induction IH; inversion Hitems; subst; constructor; auto. }
    simpl serialize. destruct items as [|v items]; [reflexivity|].
    rewrite json_wrap_nonempty by discriminate.
    assert (W1 : all_ws (inner_ws gap (indent ++ gap)) = true).
    { apply all_ws_inner. rewrite all_ws_app, Hi, Hg. reflexivity. }
    assert (W0 : all_ws (inner_ws gap indent) = true) by now apply all_ws_inner.
    rewrite !append_assoc. cbn [append parse_value].
    rewrite skip_ws_head by reflexivity.
    change (code "[" =? 110)%N with false.
    change (code "[" =? 116)%N with false.
    change (code "[" =? 102)%N with false.
    change (code "[" =? 34)%N with false.
    change (code "[" =? 91)%N with true. cbv iota.
    assert (Hi' : all_ws (indent ++ gap) = true)
      by (rewrite all_ws_app, Hi, Hg; reflexivity).
    rewrite (elements_roundtrip (v :: items) ltac:(discriminate) HF
               gap (indent ++ gap) _ _ rest f Hg Hi' W1 W0)
      by (simpl in Hf |- *; lia).
    rewrite skip_ws_app by assumption.
    destruct (elements_head gap (indent ++ gap) (String "," (inner_ws gap (indent ++ gap)))
                (inner_ws gap indent ++ String "]" rest) v items)
      as (c & s & E & Hc & H93).
    rewrite E, skip_ws_head, H93 by assumption. reflexivity.
  - inversion Hwf as [| | | | |? Hnodup Hmembers]; subst.
    assert (HF : Forall (fun kv => index_like (fst kv) = false /\ reads_back (snd kv))
                   members).
    { clear -IH Hmembers.
      induction IH; inversion Hmembers; subst; constructor; intuition. }
    simpl serialize. destruct members as [|kv members]; [reflexivity|].
    rewrite json_wrap_nonempty by discriminate.
    assert (W1 : all_ws (inner_ws gap (indent ++ gap)) = true).
    { apply all_ws_inner. rewrite all_ws_app, Hi, Hg. reflexivity. }
    assert (W0 : all_ws (inner_ws gap indent) = true) by now apply all_ws_inner.
    rewrite !append_assoc. cbn [append parse_value].
    rewrite skip_ws_head by reflexivity.
    change (code "{" =? 110)%N with false.
    change (code "{" =? 116)%N with false.
    change (code "{" =? 102)%N with false.
    change (code "{" =? 34)%N with false.
    change (code "{" =? 91)%N with false.
    change (code "{" =? 123)%N with true. cbv iota.
    assert (Hi' : all_ws (indent ++ gap) = true)
      by (rewrite all_ws_app, Hi, Hg; reflexivity).
    rewrite (members_roundtrip (kv :: members) ltac:(discriminate) HF
               gap (indent ++ gap) _ _ rest f [] Hg Hi' W1 W0)
      by (simpl in Hf |- *; lia).
    rewrite skip_ws_app by assumption.
    destruct (members_head gap (indent ++ gap) (String "," (inner_ws gap (indent ++ gap)))
                (inner_ws gap indent ++ String "}" rest) kv members) as (s & E).
    rewrite E, skip_ws_head by reflexivity.
    change (code dquote =? 125)%N with false. cbv iota.
    now rewrite (spread_fresh [] (kv :: members)).
Qed.

(** *** Fuel: the text is at least as long as the value is large *)

Lemma concat_length (sep : string) (parts : list string) :
  parts <> [] -> 1 <= String.length sep ->
  fold_right (fun p n => S (String.length p) + n) 0 parts
  <= S (String.length (String.concat sep parts)).
Proof.
  intros Hp Hs. induction parts as [|p parts IH]; [congruence|].
  destruct parts as [|q parts].
  - simpl. lia.
  - change (String.concat sep (p :: q :: parts))
      with (p ++ sep ++ String.concat sep (q :: parts)).
    rewrite !length_append.
    assert (IH' := IH ltac:(discriminate)).
    simpl in IH' |- *. lia.
Qed.

Lemma json_wrap_length (o c : ascii) (gap stepback indent : string)
    (parts : list string) :
  S (fold_right (fun p n => S (String.length p) + n) 0 parts)
  <= String.length (json_wrap (str1 o) (str1 c) gap stepback indent parts).
Proof.
  destruct parts as [|p parts]; [simpl; lia|].
  rewrite json_wrap_nonempty by discriminate.
  pose proof (concat_length (String "," (inner_ws gap indent)) (p :: parts)
                ltac:(discriminate) ltac:(simpl; lia)) as H.
  rewrite !length_append.
  change (String.length (str1 o)) with 1. change (String.length (str1 c)) with 1.
  lia.
Qed.

Lemma size_le_length (v : json) (gap indent : string) :
  size v <= String.length (serialize gap indent v).
Proof.
  revert indent.
  induction v as [ |b|n|s|items IH|members IH] using json_induction; intros indent.
  - simpl. lia.
  - destruct b; simpl; lia.
  - destruct (number_head n) as (c & s & E & _). simpl serialize. rewrite E.
    simpl. lia.
  - simpl. lia.
  - simpl serialize. simpl size.
    etransitivity; [|apply (json_wrap_length "[" "]")].
    apply le_n_S. induction IH as [|x items Hx _ IHl]; cbn [fold_right map]; [lia|].
    specialize (Hx (indent ++ gap)). lia.
  - simpl serialize. simpl size.
    etransitivity; [|apply (json_wrap_length "{" "}")].
    apply le_n_S. induction IH as [|kv members Hkv _ IHl]; cbn [fold_right map]; [lia|].
    specialize (Hkv (indent ++ gap)).
    assert (Hm : String.length (serialize gap (indent ++ gap) (snd kv))
                 <= String.length (json_member gap (fst kv)
                                     (serialize gap (indent ++ gap) (snd kv))))
      by (unfold json_member; rewrite !length_append; lia).
    lia.
Qed.

(** [JSON.parse(JSON.stringify(v, null, space))] is [v] *)
Lemma JSON_roundtrip (v : json) (space : nat) :
  json_wf v -> JSON_parse (JSON_stringify v space) = Some v.
Proof.
  intros Hwf. unfold JSON_parse, JSON_stringify.
  set (gap := spaces (Nat.min space 10)).
  pose proof (parse_serialize v Hwf gap EmptyString EmptyString
                (S (String.length (serialize gap EmptyString v)))
                (all_ws_spaces _) eq_refl eq_refl) as P.
  rewrite append_nil_r in P. rewrite P; [reflexivity|].
  pose proof (size_le_length v gap EmptyString). lia.
Qed.

(** *** What [JSON.parse] returns has no duplicate keys *)

Lemma members_wf_set (acc : Obj.t json) (k : string) (v : json) :
  members_wf acc -> index_like k = false -> json_wf v ->
  members_wf (Obj.set acc k v).
Proof.
  intros [Hn Hf] Hk Hv. split.
  - change (NoDup (Obj.keys (Obj.set acc k v))). rewrite keys_set.
    destruct (in_dec string_dec k (Obj.keys acc)) as [_|N]; [exact Hn|].
    apply NoDup_app; [exact Hn | repeat constructor; intros [] | ].
    intros x Hx [<-|[]]. now apply N.
  - clear Hn. induction acc as [|[k' v'] acc IH]; simpl.
    + repeat constructor; assumption.
    + inversion Hf as [|? ? [Hk' Hv'] Hacc]; subst.
      destruct (String.eqb k' k); constructor; auto.
Qed.

Lemma parse_wf (f : nat) :
  (forall s v r, parse_value f s = Some (v, r) -> json_wf v)
  /\ (forall s vs r, parse_elements f s = Some (vs, r) -> Forall json_wf vs)
  /\ (forall s acc ms r, parse_members f s acc = Some (ms, r) ->
                         members_wf acc -> members_wf ms).
Proof.
  induction f as [|f (IHv & IHe & IHm)];
    [repeat split; intros; discriminate|].
  split; [|split].
  - intros s v r. cbn [parse_value]. unfold literal.
    repeat match goal with
           | |- context [match ?x with _ => _ end] => destruct x eqn:?
           end;
      intros H; try discriminate H; injection H as <- <-;
      try (constructor;
           solve [ constructor | eauto | eapply parse_number_safe; eassumption ]).
    all: match goal with
         | M : parse_members _ _ [] = Some _ |- _ =>
             apply IHm in M; [destruct M; now constructor | split; constructor]
         end.
  - intros s vs r. cbn [parse_elements].
    repeat match goal with
           | |- context [match ?x with _ => _ end] => destruct x eqn:?
           end;
      intros H; try discriminate H; injection H as <- <-; constructor; eauto.
  - intros s acc ms r. cbn [parse_members].
    repeat match goal with
           | |- context [match ?x with _ => _ end] => destruct x eqn:?
           end;
      intros H Hacc; try discriminate H.
    + eapply IHm; [eassumption|]. apply members_wf_set; eauto.
    + injection H as <- <-. apply members_wf_set; eauto.
Qed.

Lemma JSON_parse_wf (s : string) (v : json) : JSON_parse s = Some v -> json_wf v.
Proof.
  unfold JSON_parse. destruct (parse_value _ s) as [[v' r]|] eqn:E; [|discriminate].
  destruct (skip_ws r); [|discriminate].
  intros H. injection H as <-.
  now apply (proj1 (parse_wf _)) in E.
Qed.

(** *** What [JSON_parse] reads is a JSON text *)

Lemma is_digit_digit_of_char (c : ascii) :
  is_digit c = match digit_of_char c with Some _ => true | None => false end.
Proof. destruct c as [[] [] [] [] [] [] [] []]; reflexivity. Qed.

Lemma read_digits_skip (s : string) : snd (read_digits s) = skip_digits s.
Proof.
  induction s as [|c s IH]; [reflexivity|].
  simpl. rewrite is_digit_digit_of_char.
  destruct (digit_of_char c); [|reflexivity].
  destruct (read_digits s). exact IH.
Qed.

Lemma parse_int_valid (s : string) (n : N) (r : string) :
  parse_int s = Some (n, r) -> valid_int s = Some r.
Proof.
  destruct s as [|c s]; [discriminate|]. unfold parse_int, valid_int.
  destruct (code c =? 48)%N; [intros H; now injection H as _ <-|].
  rewrite is_digit_digit_of_char.
  destruct (digit_of_char c) eqn:D; [|discriminate].
  pose proof (read_digits_skip (String c s)) as R.
  simpl in R. rewrite D, is_digit_digit_of_char, D in R.
  simpl. rewrite D.
  destruct (read_digits s) as [d r']. simpl in R.
  intros H. injection H as _ <-.
  pose proof (read_digits_skip s) as R'. destruct (read_digits s) as [d' r''].
  simpl in *. congruence.
Qed.

Lemma no_fraction_valid (r : string) :
  starts_fraction r = false -> valid_fraction r = Some r /\ valid_exponent r = Some r.
Proof.
  destruct r as [|c r]; [split; reflexivity|].
  unfold starts_fraction, valid_fraction, valid_exponent.
  destruct (code c =? 46)%N; [discriminate|].
  destruct (code c =? 101)%N; [discriminate|].
  destruct (code c =? 69)%N; [discriminate|].
  split; reflexivity.
Qed.

Lemma parse_number_valid (s : string) (n : Z) (r : string) :
  parse_number s = Some (n, r) -> valid_number s = Some r.
Proof.
  unfold parse_number, valid_number.
  destruct s as [|c s]; [discriminate|].
  destruct (code c =? 45)%N.
  - destruct (parse_int s) as [[m r']|] eqn:E; [|discriminate].
    rewrite (parse_int_valid _ _ _ E).
    destruct m; [discriminate|].
    destruct (starts_fraction r') eqn:F; [discriminate|].
    destruct (safe_integer _); [|discriminate].
    intros H. injection H as _ <-.
    destruct (no_fraction_valid r' F) as [-> ->]. reflexivity.
  - destruct (parse_int (String c s)) as [[m r']|] eqn:E; [|discriminate].
    rewrite (parse_int_valid _ _ _ E).
    destruct (starts_fraction r') eqn:F; [discriminate|].
    destruct (safe_integer _); [|discriminate].
    intros H. injection H as _ <-.
    destruct (no_fraction_valid r' F) as [-> ->]. reflexivity.
Qed.

Lemma prepend_some (p : string) (o : option (string * string)) (x r : string) :
  prepend p o = Some (x, r) -> exists x', o = Some (x', r).
Proof.
  destruct o as [[x' r']|]; [|discriminate].
  intros H. injection H as _ <-. now exists x'.
Qed.

Lemma parse_chars_valid_bounded (n : nat) :
  forall s x r, String.length s <= n ->
                parse_chars s = Some (x, r) -> valid_chars s = Some r.
Proof.
  induction n as [|n IH]; intros s x r Hn.
  - destruct s; [discriminate | simpl in Hn; lia].
  - destruct s as [|c s1]; [discriminate|].
    simpl in Hn. cbn [parse_chars valid_chars].
    destruct (code c =? 34)%N; [intros H; now injection H as _ <-|].
    destruct (code c =? 92)%N.
    + destruct s1 as [|e s2]; [discriminate|]. simpl in Hn.
      destruct (code e =? 117)%N.
      * destruct s2 as [|h1 [|h2 [|h3 [|h4 s3]]]]; try discriminate.
        simpl in Hn.
        destruct (hex4 h1 h2 h3 h4); [|discriminate].
        destruct (utf8_of_code_unit _); [|discriminate].
        intros H. apply prepend_some in H. destruct H as [x' H].
        apply (IH s3 x' r); [lia | exact H].
      * destruct (simple_escape e); [|discriminate].
        intros H. apply prepend_some in H. destruct H as [x' H].
        apply (IH s2 x' r); [lia | exact H].
    + destruct (code c <? 32)%N; [discriminate|].
      intros H. apply prepend_some in H. destruct H as [x' H].
      apply (IH s1 x' r); [lia | exact H].
Qed.

Lemma parse_chars_valid (s x r : string) :
  parse_chars s = Some (x, r) -> valid_chars s = Some r.
Proof. apply (parse_chars_valid_bounded (String.length s)). lia. Qed.

Lemma literal_valid (p : string) (v w : json) (s r : string) :
  literal p v s = Some (w, r) -> strip_prefix p s = Some r.
Proof.
  unfold literal. destruct (strip_prefix p s); [|discriminate].
  intros H. now injection H as _ <-.
Qed.

Lemma parse_valid (f : nat) :
  (forall s v r, parse_value f s = Some (v, r) -> valid_value f s = Some r)
  /\ (forall s vs r, parse_elements f s = Some (vs, r) -> valid_elements f s = Some r)
  /\ (forall s acc ms r, parse_members f s acc = Some (ms, r) ->
                         valid_members f s = Some r).
Proof.
  induction f as [|f (IHv & IHe & IHm)];
    [repeat split; intros; discriminate|].
  split; [|split].
  - intros s v r H. cbn [parse_value] in H. cbn [valid_value].
    destruct (skip_ws s) as [|c s1]; [discriminate|].
    destruct (code c =? 110)%N; [now apply literal_valid in H|].
    destruct (code c =? 116)%N; [now apply literal_valid in H|].
    destruct (code c =? 102)%N; [now apply literal_valid in H|].
    destruct (code c =? 34)%N.
    { destruct (parse_chars s1) as [[x r']|] eqn:E; [|discriminate].
      injection H as _ <-. now apply parse_chars_valid in E. }
    destruct (code c =? 91)%N.
    { destruct (skip_ws s1) as [|c2 s2]; [discriminate|].
      destruct (code c2 =? 93)%N; [now injection H as _ <-|].
      destruct (parse_elements f s1) as [[vs r']|] eqn:E; [|discriminate].
      injection H as _ <-. now apply IHe in E. }
    destruct (code c =? 123)%N.
    { destruct (skip_ws s1) as [|c2 s2]; [discriminate|].
      destruct (code c2 =? 125)%N; [now injection H as _ <-|].
      destruct (parse_members f s1 []) as [[ms r']|] eqn:E; [|discriminate].
      injection H as _ <-. now apply IHm in E. }
    destruct (parse_number (String c s1)) as [[n r']|] eqn:E; [|discriminate].
    injection H as _ <-. now apply parse_number_valid in E.
  - intros s vs r H. cbn [parse_elements] in H. cbn [valid_elements].
    destruct (parse_value f s) as [[v r']|] eqn:E; [|discriminate].
    rewrite (IHv _ _ _ E).
    destruct (skip_ws r') as [|c r1]; [discriminate|].
    destruct (code c =? 44)%N.
    { destruct (parse_elements f r1) as [[vs' r2]|] eqn:E'; [|discriminate].
      injection H as _ <-. now apply IHe in E'. }
    destruct (code c =? 93)%N; [|discriminate].
    now injection H as _ <-.
  - intros s acc ms r H. cbn [parse_members] in H. cbn [valid_members].
    destruct (skip_ws s) as [|c s1]; [discriminate|].
    destruct (code c =? 34)%N; [|discriminate].
    destruct (parse_chars s1) as [[k r']|] eqn:E; [|discriminate].
    rewrite (parse_chars_valid _ _ _ E).
    destruct (skip_ws r') as [|c2 r1]; [discriminate|].
    destruct (index_like k); [discriminate|].
    destruct (code c2 =? 58)%N; [|discriminate].
    destruct (parse_value f r1) as [[v r2]|] eqn:E'; [|discriminate].
    rewrite (IHv _ _ _ E').
    destruct (skip_ws r2) as [|c3 r3]; [discriminate|].
    destruct (code c3 =? 44)%N; [now apply IHm in H|].
    destruct (code c3 =? 125)%N; [|discriminate].
    now injection H as _ <-.
Qed.

(** a text with a value in the model is a JSON text *)
Lemma JSON_parse_valid (s : string) (v : json) :
  JSON_parse s = Some v -> JSON_valid s = true.
Proof.
  unfold JSON_parse, JSON_valid.
  destruct (parse_value _ s) as [[v' r]|] eqn:E; [|discriminate].
  apply (proj1 (parse_valid _)) in E. rewrite E.
  destruct (skip_ws r); [reflexivity | discriminate].
Qed.

(** a text of white space only is no JSON text *)
Lemma JSON_valid_blank (s : string) : all_ws s = true -> JSON_valid s = false.
Proof.
  intros H. unfold JSON_valid. cbn [valid_value].
  rewrite <- (append_nil_r s), skip_ws_app by assumption. reflexivity.
Qed.

(** * The dispatch boundary *)

(** every handler is the same try/catch around [api] *)
Lemma dispatch_handle (env : environment) (w : world) (c : call) :
  dispatch env w c
  = try_catch (data <- api env w (call_path c) (call_options c) ;; Ok (toolResult data))
              (fun err => Ok (toolError err)).
Proof. destruct c; reflexivity. Qed.

(** every handler settles what [fetch] does with the request of the call *)
Lemma dispatch_settle (env : environment) (w : world) (c : call) :
  dispatch env w c = settle w (fetch w (call_url env c) (call_init env c)).
Proof. destruct c; reflexivity. Qed.

(** what becomes of the outcome of a request, case by case *)
Lemma settle_outcome (w : world) (r : result Response) :
  settle w r
  = match r with
    | Unsettled => Unsettled
    | Throw err => Ok (toolError err)
    | Ok res =>
        match read_body res with
        | Unsettled => Unsettled
        | Throw err => Ok (toolError err)
        | Ok s =>
            if ok res
            then if JSON_valid s
                 then Ok (toolResult match JSON_parse s with
                                     | Some v => Value v
                                     | None => Foreign (foreign_stringified res)
                                     end)
                 else Ok (toolError (Error (syntax_error w s)))
            else Ok (toolError
                       (Error ("API " ++ string_of_N (status res) ++ ": " ++ s)))
        end
    end.
Proof.
  unfold settle, api_settle, Response_text, Response_json, bind, try_catch.
  destruct r as [res|err|]; [|reflexivity|reflexivity].
  destruct (ok res), (read_body res) as [s|err|]; try reflexivity.
  cbn [negb].
  destruct (JSON_valid s); [|reflexivity].
  destruct (JSON_parse s); reflexivity.
Qed.

Lemma dispatch_outcome (env : environment) (w : world) (c : call) :
  dispatch env w c
  = match fetch w (call_url env c) (call_init env c) with
    | Unsettled => Unsettled
    | Throw err => Ok (toolError err)
    | Ok res =>
        match read_body res with
        | Unsettled => Unsettled
        | Throw err => Ok (toolError err)
        | Ok s =>
            if ok res
            then if JSON_valid s
                 then Ok (toolResult match JSON_parse s with
                                     | Some v => Value v
                                     | None => Foreign (foreign_stringified res)
                                     end)
                 else Ok (toolError (Error (syntax_error w s)))
            else Ok (toolError
                       (Error ("API " ++ string_of_N (status res) ++ ": " ++ s)))
        end
    end.
Proof. rewrite dispatch_settle. apply settle_outcome. Qed.

Lemma toolResult_success (d : data) : is_success (toolResult d).
Proof. eexists. reflexivity. Qed.

Lemma toolError_error (err : thrown) : is_error (toolError err).
Proof. destruct err; eexists; reflexivity. Qed.

Lemma not_success_and_error (e : envelope) : ~ (is_success e /\ is_error e).
Proof. intros [[p Hp] [m Hm]]. rewrite Hp in Hm. discriminate. Qed.

(** * Paths and query strings *)

(** ** The characters of a path *)

Lemma count_char_all (p : ascii -> bool) (c : ascii) (s : string) :
  all_chars p s = true -> p c = false -> count_char c s = 0.
Proof.
  intros H Hc. induction s as [|a s IH]; [reflexivity|].
  simpl in *. apply andb_true_iff in H. destruct H as [Ha Hs].
  destruct (Ascii.eqb_spec a c) as [->|_]; [congruence | now apply IH].
Qed.

Lemma all_chars_app (p : ascii -> bool) (a b : string) :
  all_chars p (a ++ b) = (all_chars p a && all_chars p b)%bool.
Proof. induction a; simpl; [reflexivity|]. rewrite IHa. apply andb_assoc. Qed.

Lemma encode_byte_safe (c : ascii) :
  all_chars url_safe (URLSearchParams.encode_byte c) = true.
Proof. destruct c as [[] [] [] [] [] [] [] []]; reflexivity. Qed.

Lemma encode_safe (s : string) : all_chars url_safe (URLSearchParams.encode s) = true.
Proof.
  induction s as [|c s IH]; [reflexivity|]. simpl.
  now rewrite all_chars_app, encode_byte_safe, IH.
Qed.

Lemma digits_safe (d : uint) : all_chars url_safe (string_of_digits d) = true.
Proof. induction d; simpl; auto. Qed.

Lemma number_safe (n : Z) : all_chars url_safe (string_of_number n) = true.
Proof. destruct n; simpl; [reflexivity | apply digits_safe | apply digits_safe]. Qed.

Lemma pair_string_safe (kv : string * string) :
  all_chars (fun c => url_safe c || (code c =? 61)%N)
    (URLSearchParams.pair_string kv) = true.
Proof.
  assert (W : forall s, all_chars url_safe s = true ->
                        all_chars (fun c => url_safe c || (code c =? 61)%N) s = true).
  { induction s as [|c s IH]; simpl; [reflexivity|]. intros H.
    apply andb_true_iff in H. destruct H as [-> H]. now rewrite IH. }
  unfold URLSearchParams.pair_string.
  rewrite !all_chars_app.
  rewrite (W (URLSearchParams.encode (fst kv))), (W (URLSearchParams.encode (snd kv)))
    by apply encode_safe.
  reflexivity.
Qed.

Lemma toString_safe (params : URLSearchParams.t) :
  all_chars (fun c => url_safe c || (code c =? 61)%N || (code c =? 38)%N)
    (URLSearchParams.toString params) = true.
Proof.
  assert (W : forall s, all_chars (fun c => url_safe c || (code c =? 61)%N) s = true ->
     all_chars (fun c => url_safe c || (code c =? 61)%N || (code c =? 38)%N) s = true).
  { induction s as [|c s IH]; simpl; [reflexivity|]. intros H.
    apply andb_true_iff in H. destruct H as [-> H]. now rewrite IH. }
  unfold URLSearchParams.toString.
  induction params as [|kv params IH]; [reflexivity|].
  simpl. destruct (map URLSearchParams.pair_string params) eqn:E.
  - apply W, pair_string_safe.
  - rewrite !all_chars_app, W by apply pair_string_safe.
    simpl in *. now rewrite IH.
Qed.

Lemma count_with_query (base : string) (params : URLSearchParams.t) :
  count_char "?" base = 0 ->
  count_char "?" (with_query base (URLSearchParams.toString params)) <= 1.
Proof.
  intros Hb. unfold with_query. rewrite count_char_app, Hb.
  destruct (truthy_string _); simpl; [|lia].
  rewrite (count_char_all _ "?" _ (toString_safe params)); [lia | reflexivity].
Qed.

Lemma count_leaderboard_path (limit : option Z) :
  count_char "?" (leaderboard_path limit) <= 1.
Proof.
  unfold leaderboard_path. rewrite count_char_app.
  destruct limit as [n|]; simpl; [|lia].
  destruct (truthy_number n); simpl; [|lia].
  rewrite (count_char_all _ "?" _ (number_safe n)); [lia | reflexivity].
Qed.

Lemma count_slug_path (base slug : string) :
  count_char "?" base = 0 ->
  count_char "?" (base ++ slug) <= Nat.max 1 (count_char "?" slug).
Proof. intros H. rewrite count_char_app, H. lia. Qed.

Lemma count_call_path (c : call) :
  count_char "?" (call_path c) <= Nat.max 1 (slug_question_marks c).
Proof.
  destruct c; unfold slug_question_marks; simpl call_slug; unfold call_path.
  - now apply count_slug_path.
  - now apply count_slug_path.
  - now apply count_slug_path.
  - unfold browse_people_path.
    etransitivity; [apply count_with_query; reflexivity | lia].
  - unfold find_needs_path.
    etransitivity; [apply count_with_query; reflexivity | lia].
  - unfold my_contributions_path.
    etransitivity; [apply count_with_query; reflexivity | lia].
  - etransitivity; [apply count_leaderboard_path | lia].
  - now apply count_slug_path.
Qed.

(** what [api] adds to the question marks of the path *)
Lemma count_api_url (env : environment) (path : string) :
  count_char "?" (api_url env path)
  = count_char "?" path
    + (if truthy_string (USER_TOKEN env) then 0
       else (if includes "?" path then 0 else 1) + count_char "?" (AGENT_NAME env)).
Proof.
  unfold api_url, agentSuffix, sep. rewrite !count_char_app.
  destruct (truthy_string (USER_TOKEN env)); [simpl; lia|].
  rewrite !count_char_app. destruct (includes "?" path); simpl; lia.
Qed.

(** ** Splitting a path *)

Lemma split_on_nonempty (c : ascii) (s : string) : split_on c s <> [].
Proof.
  induction s as [|x s IH]; simpl; [discriminate|].
  destruct (Ascii.eqb x c); [discriminate|].
  destruct (split_on c s); discriminate.
Qed.

Lemma split_on_app_any (c : ascii) (a b : string) :
  split_on c (a ++ String c b) = (split_on c a ++ split_on c b)%list.
Proof.
  induction a as [|x a IH]; simpl.
  - now rewrite Ascii.eqb_refl.
  - destruct (Ascii.eqb x c); [now rewrite IH|].
    rewrite IH. destruct (split_on c a) eqn:E; [|reflexivity].
    now apply split_on_nonempty in E.
Qed.

Lemma split_on_clean (c : ascii) (s : string) :
  count_char c s = 0 -> split_on c s = [s].
Proof.
  induction s as [|a s IH]; simpl; [reflexivity|].
  destruct (Ascii.eqb a c); [discriminate|].
  intros H. now rewrite IH.
Qed.

Lemma split_on_app (c : ascii) (a b : string) :
  count_char c a = 0 -> split_on c (a ++ String c b) = a :: split_on c b.
Proof.
  induction a as [|x a IH]; simpl.
  - now rewrite Ascii.eqb_refl.
  - destruct (Ascii.eqb x c); [discriminate|].
    intros H. now rewrite IH.
Qed.

Lemma split_on_concat (c : ascii) (l : list string) :
  l <> [] -> Forall (fun s => count_char c s = 0) l ->
  split_on c (String.concat (String c EmptyString) l) = l.
Proof.
  induction l as [|s l IH]; [congruence|].
  intros _ H. inversion H as [|? ? Hs Hl]; subst.
  destruct l as [|s' l].
  - simpl. now apply split_on_clean.
  - change (String.concat (String c EmptyString) (s :: s' :: l))
      with (s ++ String c (String.concat (String c EmptyString) (s' :: l))).
    rewrite split_on_app by assumption.
    rewrite IH; [reflexivity | discriminate | assumption].
Qed.

Lemma before_app (c : ascii) (a b : string) :
  count_char c a = 0 -> before c (a ++ String c b) = a.
Proof. intros H. unfold before. now rewrite split_on_app. Qed.

Lemma after_first_clean (c : ascii) (s : string) :
  count_char c s = 0 -> after_first c s = None.
Proof.
  induction s as [|a s IH]; simpl; [reflexivity|].
  destruct (Ascii.eqb a c); [discriminate | exact IH].
Qed.

Lemma after_first_app (c : ascii) (a b : string) :
  count_char c a = 0 -> after_first c (a ++ String c b) = Some b.
Proof.
  induction a as [|x a IH]; simpl.
  - now rewrite Ascii.eqb_refl.
  - destruct (Ascii.eqb x c); [discriminate | exact IH].
Qed.

Lemma pair_string_truthy (kv : string * string) (s : string) :
  truthy_string (URLSearchParams.pair_string kv ++ s) = true.
Proof.
  unfold URLSearchParams.pair_string.
  destruct (URLSearchParams.encode (fst kv)); reflexivity.
Qed.

Lemma before_cons (c x : ascii) (s : string) :
  before c (String x s) = if Ascii.eqb x c then EmptyString else String x (before c s).
Proof.
  unfold before. simpl. destruct (Ascii.eqb x c); [reflexivity|].
  destruct (split_on c s) eqn:E; [|reflexivity].
  now apply split_on_nonempty in E.
Qed.

Lemma before_clean (c : ascii) (s : string) : count_char c s = 0 -> before c s = s.
Proof. intros H. unfold before. now rewrite split_on_clean. Qed.

(** a prefix without [c] stays *)
Lemma before_app_clean (c : ascii) (a s : string) :
  count_char c a = 0 -> before c (a ++ s) = a ++ before c s.
Proof.
  induction a as [|x a IH]; [reflexivity|].
  simpl. rewrite before_cons.
  destruct (Ascii.eqb x c); [discriminate|].
  intros H. now rewrite IH.
Qed.

(** what follows the first [c] goes *)
Lemma before_app_has (c : ascii) (a b : string) :
  count_char c a <> 0 -> before c (a ++ b) = before c a.
Proof.
  induction a as [|x a IH]; [intros H; now elim H|].
  simpl. rewrite !before_cons.
  destruct (Ascii.eqb x c); [reflexivity|].
  intros H. now rewrite IH.
Qed.

Lemma count_before (d c : ascii) (s : string) :
  count_char d s = 0 -> count_char d (before c s) = 0.
Proof.
  induction s as [|x s IH]; [reflexivity|].
  rewrite before_cons. simpl.
  destruct (Ascii.eqb x c); [reflexivity|].
  simpl. destruct (Ascii.eqb x d); [discriminate | exact IH].
Qed.

Lemma query_string_base (path : string) :
  query_string (API_BASE ++ path) = query_string path.
Proof.
  unfold query_string. now rewrite before_app_clean.
Qed.

Lemma query_pairs_base (path : string) :
  query_pairs (API_BASE ++ path) = query_pairs path.
Proof. unfold query_pairs. now rewrite query_string_base. Qed.

Lemma after_first_some (c : ascii) (s r t : string) :
  after_first c s = Some r -> after_first c (s ++ t) = Some (r ++ t).
Proof.
  induction s as [|a s IH]; simpl; [discriminate|].
  destruct (Ascii.eqb a c); [|exact IH].
  intros H. now injection H as <-.
Qed.

Lemma includes_after_first (c : ascii) (s : string) :
  includes (String c EmptyString) s
  = match after_first c s with Some _ => true | None => false end.
Proof.
  rewrite includes_char. induction s as [|a s IH]; simpl; [reflexivity|].
  destruct (Ascii.eqb a c); [reflexivity | exact IH].
Qed.

Lemma after_first_none_count (c : ascii) (s : string) :
  after_first c s = None -> count_char c s = 0.
Proof.
  induction s as [|a s IH]; simpl; [reflexivity|].
  destruct (Ascii.eqb a c); [discriminate | exact IH].
Qed.

(** ** Reading a query string back *)

Lemma form_decode_encode_byte (c : ascii) (s : string) :
  form_decode (URLSearchParams.encode_byte c ++ s) = String c (form_decode s).
Proof. destruct c as [[] [] [] [] [] [] [] []]; reflexivity. Qed.

(** what the form serializer writes, the form parser reads back *)
Lemma form_decode_encode (s : string) : form_decode (URLSearchParams.encode s) = s.
Proof.
  induction s as [|c s IH]; [reflexivity|].
  simpl URLSearchParams.encode. now rewrite form_decode_encode_byte, IH.
Qed.

Lemma form_pair_pair_string (kv : string * string) :
  form_pair (URLSearchParams.pair_string kv) = kv.
Proof.
  destruct kv as [k v]. unfold form_pair, URLSearchParams.pair_string.
  simpl fst. simpl snd.
  change (URLSearchParams.encode k ++ "=" ++ URLSearchParams.encode v)
    with (URLSearchParams.encode k ++ String "=" (URLSearchParams.encode v)).
  assert (H : count_char "=" (URLSearchParams.encode k) = 0)
    by (apply (count_char_all _ "=" _ (encode_safe k)); reflexivity).
  now rewrite before_app, after_first_app, !form_decode_encode.
Qed.

Lemma digits_unreserved (d : uint) :
  all_chars URLSearchParams.unreserved (string_of_digits d) = true.
Proof. induction d; simpl; auto. Qed.

Lemma form_decode_plain (s : string) :
  all_chars URLSearchParams.unreserved s = true -> form_decode s = s.
Proof.
  induction s as [|c s IH]; [reflexivity|].
  intros H. simpl in H. apply andb_true_iff in H. destruct H as [Hc Hs].
  simpl. rewrite (IH Hs).
  destruct c as [[] [] [] [] [] [] [] []]; try discriminate Hc; reflexivity.
Qed.

Lemma form_decode_number (n : Z) : form_decode (string_of_number n) = string_of_number n.
Proof.
  apply form_decode_plain.
  destruct n; simpl; [reflexivity | apply digits_unreserved | apply digits_unreserved].
Qed.

(** the pairs read back from a path with a query are the parameters *)
Lemma query_pairs_with_query (base : string) (params : URLSearchParams.t) :
  count_char "?" base = 0 -> count_char "#" base = 0 ->
  query_pairs (with_query base (URLSearchParams.toString params)) = params.
Proof.
  intros Hb Hh. unfold with_query, query_pairs, query_string.
  destruct params as [|kv params].
  - simpl. rewrite append_nil_r, before_clean, after_first_clean by assumption.
    reflexivity.
  - assert (T : truthy_string (URLSearchParams.toString (kv :: params)) = true).
    { unfold URLSearchParams.toString. simpl.
      destruct (map URLSearchParams.pair_string params).
      - rewrite <- (append_nil_r (URLSearchParams.pair_string kv)).
        apply pair_string_truthy.
      - apply pair_string_truthy. }
    rewrite T. change ("?" ++ ?s) with (String "?" s).
    rewrite before_clean.
    2:{ rewrite count_char_app, Hh. simpl.
        apply (count_char_all _ "#" _ (toString_safe (kv :: params))). reflexivity. }
    rewrite after_first_app by assumption.
    unfold URLSearchParams.toString.
    rewrite split_on_concat.
    + generalize (kv :: params). intros l.
      induction l as [|p l IH]; [reflexivity|].
      cbn [map filter].
      rewrite <- (append_nil_r (URLSearchParams.pair_string p)) at 1.
      rewrite pair_string_truthy. cbn [map].
      now rewrite form_pair_pair_string, IH.
    + discriminate.
    + apply Forall_forall. intros s Hs. apply in_map_iff in Hs.
      destruct Hs as (kv' & <- & _).
      apply (count_char_all _ "&" _ (pair_string_safe kv')). reflexivity.
Qed.

(** the one pair of the path of leaderboard *)
Lemma query_pairs_leaderboard (limit : option Z) :
  query_pairs (leaderboard_path limit)
  = keep_pair truthy_number string_of_number "limit" limit.
Proof.
  unfold leaderboard_path, query_pairs, query_string, keep_pair.
  destruct limit as [n|]; [|reflexivity].
  destruct (truthy_number n); [|reflexivity].
  rewrite before_clean.
  2:{ rewrite count_char_app. simpl.
      apply (count_char_all _ "#" _ (number_safe n)). reflexivity. }
  change ("/leaderboard" ++ "?limit=" ++ string_of_number n)
    with ("/leaderboard" ++ String "?" ("limit" ++ String "=" (string_of_number n))).
  rewrite after_first_app by reflexivity.
  rewrite split_on_clean.
  - cbn [filter truthy_string append map]. unfold form_pair.
    change (String "l" (String "i" (String "m" (String "i" (String "t"
              (String "=" (string_of_number n)))))))
      with ("limit" ++ String "=" (string_of_number n)).
    rewrite before_app, after_first_app by reflexivity.
    now rewrite form_decode_number.
  - rewrite count_char_app. simpl.
    apply (count_char_all _ "&" _ (number_safe n)). reflexivity.
Qed.

(** the pairs of the paths of the query-parameterized tools *)
Lemma query_pairs_browse_people (q tag : option string) (page limit : option Z) :
  query_pairs (browse_people_path q tag page limit)
  = (keep_pair truthy_string id_string "q" q
     ++ keep_pair truthy_string id_string "tag" tag
     ++ keep_pair truthy_number string_of_number "page" page
     ++ keep_pair truthy_number string_of_number "limit" limit)%list.
Proof.
  unfold browse_people_path.
  rewrite query_pairs_with_query by reflexivity.
  destruct q as [[|? ?]|], tag as [[|? ?]|], page as [[|?|?]|],
    limit as [[|?|?]|]; reflexivity.
Qed.

Lemma query_pairs_find_needs (priority : option priority_enum) (tag : option string)
    (limit : option Z) :
  query_pairs (find_needs_path priority tag limit)
  = (keep_pair (fun _ => true) priority_string "priority" priority
     ++ keep_pair truthy_string id_string "tag" tag
     ++ keep_pair truthy_number string_of_number "limit" limit)%list.
Proof.
  unfold find_needs_path.
  rewrite query_pairs_with_query by reflexivity.
  destruct priority as [[]|], tag as [[|? ?]|], limit as [[|?|?]|]; reflexivity.
Qed.

Lemma query_pairs_my_contributions (status : option status_enum) (type : option string) :
  query_pairs (my_contributions_path status type)
  = (keep_pair (fun _ => true) status_string "status" status
     ++ keep_pair truthy_string id_string "type" type)%list.
Proof.
  unfold my_contributions_path.
  rewrite query_pairs_with_query by reflexivity.
  destruct status as [[]|], type as [[|? ?]|]; reflexivity.
Qed.

(** * The properties the specification states *)

(** ** C1, C2: the envelope of a call *)

(** C1, amended: no call of any tool throws, and a call returns an envelope
    unless the request, or the reading of the response body, never settles:
    then it returns nothing.  An envelope returned has one content item and
    is a success or an error envelope, never both.  A failure of the network
    call, a failure to read the body, a status that is not 2xx and a body
    that is no JSON text each give the error envelope of that failure; a
    2xx status with a body that is JSON text gives a success envelope. *)
Theorem dispatch_returns_one_envelope (env : environment) (w : world) (c : call) :
  (forall err, dispatch env w c <> Throw err)
  /\ (dispatch env w c = Unsettled
      <-> fetch w (call_url env c) (call_init env c) = Unsettled
          \/ exists res, fetch w (call_url env c) (call_init env c) = Ok res
                         /\ read_body res = Unsettled)
  /\ (forall e, dispatch env w c = Ok e ->
                (is_success e \/ is_error e)
                /\ ~ (is_success e /\ is_error e)
                /\ length (content e) = 1)
  /\ (forall err, fetch w (call_url env c) (call_init env c) = Throw err ->
                  dispatch env w c = Ok (toolError err))
  /\ (forall res err, fetch w (call_url env c) (call_init env c) = Ok res ->
                      read_body res = Throw err ->
                      dispatch env w c = Ok (toolError err))
  /\ (forall res s, fetch w (call_url env c) (call_init env c) = Ok res ->
                    read_body res = Ok s -> ok res = false ->
                    dispatch env w c
                    = Ok (toolError
                            (Error ("API " ++ string_of_N (status res) ++ ": " ++ s))))
  /\ (forall res s, fetch w (call_url env c) (call_init env c) = Ok res ->
                    read_body res = Ok s -> ok res = true -> JSON_valid s = false ->
                    dispatch env w c = Ok (toolError (Error (syntax_error w s))))
  /\ (forall res s, fetch w (call_url env c) (call_init env c) = Ok res ->
                    read_body res = Ok s -> ok res = true -> JSON_valid s = true ->
                    exists d, dispatch env w c = Ok (toolResult d)).
Proof.
  rewrite dispatch_outcome.
  destruct (fetch w (call_url env c) (call_init env c)) as [res|err|] eqn:Hf;
    [destruct (read_body res) as [s|err|] eqn:Hb;
     [destruct (ok res) eqn:Hok; [destruct (JSON_valid s) eqn:Hv|]|..]|..].
  all: split; [congruence|].
  all: split;
    [split;
     [first [discriminate | intros _; left; reflexivity
            | intros _; right; exists res; split; [reflexivity|assumption]]
     |intros [H|[r [H1 H2]]]; congruence]|].
  all: split;
    [first [discriminate
           | intros e [= <-];
             split; [first [left; apply toolResult_success
                           | right; apply toolError_error]|];
             split; [apply not_success_and_error|];
             try destruct err; reflexivity]|].
  all: repeat (split; [intros; congruence|]).
  all: intros; first [congruence | eexists; reflexivity].
Qed.

(** the spec's invariant fails where the endpoint never answers: the call
    of leaderboard returns no envelope *)
Lemma unsettled_request_returns_no_envelope :
  dispatch default_environment world_unsettled (call_leaderboard None) = Unsettled
  /\ ~ (exists e, dispatch default_environment world_unsettled (call_leaderboard None)
                  = Ok e).
Proof. split; [reflexivity|]. intros [e H]. discriminate H. Qed.

(** C2: when the endpoint answers a call of any tool with a status S that
    is not 2xx and a body text B, the call returns the error envelope whose
    text is "Error: API S: B", which contains both S and B. *)
Theorem non_2xx_gives_error_envelope
    (env : environment) (w : world) (c : call) (res : Response) (B : string) :
  fetch w (call_url env c) (call_init env c) = Ok res ->
  ok res = false ->
  read_body res = Ok B ->
  exists e,
    dispatch env w c = Ok e
    /\ is_error e
    /\ envelope_text e = "Error: API " ++ string_of_N (status res) ++ ": " ++ B
    /\ includes (string_of_N (status res)) (envelope_text e) = true
    /\ includes B (envelope_text e) = true.
Proof.
  intros Hf Hok Hb.
  exists (toolError (Error ("API " ++ string_of_N (status res) ++ ": " ++ B))).
  split; [|split; [|split; [|split]]].
  - rewrite dispatch_outcome, Hf, Hb, Hok. reflexivity.
  - eexists. reflexivity.
  - reflexivity.
  - apply (includes_here _ "Error: API ").
  - apply (includes_app_r _ "Error: API "), includes_app_r,
      (includes_app_r _ ": "), includes_refl.
Qed.

Lemma non_2xx_gives_error_envelope_witness :
  exists e,
    dispatch default_environment (world_answering not_found)
      (call_browse_people None (Some "Music") None None) = Ok e
    /\ is_error e
    /\ envelope_text e = "Error: API 404: not found"
    /\ includes "404" (envelope_text e) = true
    /\ includes "not found" (envelope_text e) = true.
Proof.
  apply (non_2xx_gives_error_envelope default_environment (world_answering not_found)
           (call_browse_people None (Some "Music") None None) not_found "not found");
    reflexivity.
Defined.

(** ** C4: the agent parameter *)

Lemma includes_agent_base (path : string) :
  includes "agent=" (API_BASE ++ path) = includes "agent=" path.
Proof. reflexivity. Qed.

(** C4, as stated, fails: with a bearer token configured the URL of a
    request still has an [agent=] parameter when the path brings one, as a
    slug may. *)
Lemma token_url_with_agent_parameter :
  truthy_string (USER_TOKEN token_environment) = true
  /\ call_url token_environment (call_get_assignment "x?agent=y")
     = "https://api.biopics.ai/assignment/x?agent=y"
  /\ includes "agent=" (call_url token_environment (call_get_assignment "x?agent=y"))
     = true.
Proof. repeat split. Qed.

(** C4 (amended): with a bearer token configured the client appends nothing:
    the URL is the base followed by the path, and contains [agent=] only if
    the path does; with none configured it appends the agent parameter with
    the configured agent name, and the URL contains [agent=]. *)
Theorem api_url_agent_parameter (env : environment) (path : string) :
  api_url env path
  = (if truthy_string (USER_TOKEN env) then API_BASE ++ path
     else API_BASE ++ path ++ sep path ++ "agent=" ++ AGENT_NAME env)
  /\ includes "agent=" (api_url env path)
     = (negb (truthy_string (USER_TOKEN env)) || includes "agent=" path)%bool.
Proof.
  unfold api_url, agentSuffix.
  destruct (truthy_string (USER_TOKEN env)); simpl negb; simpl orb.
  - rewrite append_nil_r. split; [reflexivity | apply includes_agent_base].
  - split; [reflexivity|].
    rewrite <- (append_assoc path), <- (append_assoc API_BASE).
    apply includes_here.
Qed.
(** ** C5: the query keys of a path *)

(** C5, as stated, fails: [page] supplied as 0, or [q] supplied as the empty
    string, is an argument the caller supplied whose key the path lacks. *)
Lemma browse_people_falsy_arguments_not_sent :
  supplied (Some 0%Z) = true
  /\ browse_people_path None None (Some 0%Z) None = "/people"
  /\ query_keys (browse_people_path None None (Some 0%Z) None) = []
  /\ browse_people_path (Some EmptyString) None None None = "/people".
Proof. repeat split. Qed.

(** C5 (amended): the path of a query-parameterized tool has the key of an
    optional argument exactly when the argument was supplied with a truthy
    value (a non-empty string, a non-zero number, any value of an
    enumeration), in source order; an omitted argument is never sent. So
    browse_people with no optional argument builds [/people] and with tag
    "Music" builds [/people?tag=Music]. *)
Theorem query_keys_of_paths :
  (forall q tag page limit,
     query_keys (browse_people_path q tag page limit)
     = (keep (truthy_opt truthy_string q) "q"
        ++ keep (truthy_opt truthy_string tag) "tag"
        ++ keep (truthy_opt truthy_number page) "page"
        ++ keep (truthy_opt truthy_number limit) "limit")%list)
  /\ (forall priority tag limit,
        query_keys (find_needs_path priority tag limit)
        = (keep (supplied priority) "priority"
           ++ keep (truthy_opt truthy_string tag) "tag"
           ++ keep (truthy_opt truthy_number limit) "limit")%list)
  /\ (forall status type,
        query_keys (my_contributions_path status type)
        = (keep (supplied status) "status"
           ++ keep (truthy_opt truthy_string type) "type")%list)
  /\ (forall limit,
        query_keys (leaderboard_path limit)
        = keep (truthy_opt truthy_number limit) "limit")
  /\ browse_people_path None None None None = "/people"
  /\ browse_people_path None (Some "Music") None None = "/people?tag=Music".
Proof.
  unfold query_keys.
  split; [|split; [|split; [|split; [|split; reflexivity]]]].
  - intros q tag page limit. rewrite query_pairs_browse_people.
    destruct q as [[|? ?]|], tag as [[|? ?]|], page as [[|?|?]|],
      limit as [[|?|?]|]; reflexivity.
  - intros priority tag limit. rewrite query_pairs_find_needs.
    destruct priority as [[]|], tag as [[|? ?]|], limit as [[|?|?]|]; reflexivity.
  - intros status type. rewrite query_pairs_my_contributions.
    destruct status as [[]|], type as [[|? ?]|]; reflexivity.
  - intros limit. rewrite query_pairs_leaderboard.
    destruct limit as [[|?|?]|]; reflexivity.
Qed.

(** ** C6, C7: the body of submit_contribution *)

(** the body is a value [JSON.parse] gives back *)
Lemma submit_contribution_body_wf (type content : string)
    (source_url : option string) (scene_id : option Z) (liberty_note : option string) :
  safe_integer (match scene_id with Some n => n | None => 0%Z end) = true ->
  json_wf (JObj (submit_contribution_body type content source_url scene_id liberty_note)).
Proof.
  intros Hn. unfold submit_contribution_body.
  destruct source_url as [[|a u]|], scene_id as [[|p|p]|],
    liberty_note as [[|a' l]|]; simpl;
    (constructor;
     [ repeat (constructor; [simpl; intuition discriminate|]); constructor
     | repeat (constructor; [split; [reflexivity|]; constructor; try exact Hn|]);
       constructor ]).
Qed.

(** C6: with [scene_id] equal to 0 the body has no [scene_id] property: it is
    the body of the call that leaves [scene_id] out, and the request text is
    its serialization, which parses back to it. *)
Theorem submit_contribution_scene_id_zero
    (env : environment) (slug type content : string)
    (source_url liberty_note : option string) :
  let b := submit_contribution_body type content source_url (Some 0%Z) liberty_note in
  Obj.get b "scene_id" = None
  /\ ~ In "scene_id" (Obj.keys b)
  /\ b = submit_contribution_body type content source_url None liberty_note
  /\ body (call_init env (call_submit_contribution slug type content source_url
                            (Some 0%Z) liberty_note))
     = Some (JSON_stringify (JObj b) 0)
  /\ JSON_parse (JSON_stringify (JObj b) 0) = Some (JObj b).
Proof.
  intros b. split; [|split; [|split; [|split]]].
  - unfold b, submit_contribution_body.
    destruct source_url as [[|a u]|], liberty_note as [[|a' l]|]; reflexivity.
  - unfold b, submit_contribution_body.
    destruct source_url as [[|a u]|], liberty_note as [[|a' l]|]; simpl;
      intuition discriminate.
  - reflexivity.
  - reflexivity.
  - apply JSON_roundtrip, submit_contribution_body_wf. reflexivity.
Qed.

(** C7: the request of submit_contribution is a POST to
    [/contribute/<slug>] whose body is the JSON text of the body record;
    with only the required arguments that text is the object of [type] and
    [content] with the supplied values and nothing else; in general an
    optional field is a key of the body exactly when it was supplied
    non-empty (non-zero for [scene_id]), after the two required ones and in
    source order. *)
Theorem submit_contribution_body_keys
    (env : environment) (slug type content : string) (source_url : option string)
    (scene_id : option Z) (liberty_note : option string) :
  let b := submit_contribution_body type content source_url scene_id liberty_note in
  let required := "{" ++ quote_json_string "type" ++ ":" ++ quote_json_string type
                  ++ "," ++ quote_json_string "content" ++ ":"
                  ++ quote_json_string content ++ "}" in
  (forall w,
     dispatch env w (call_submit_contribution slug type content None None None)
     = settle w (fetch w (api_url env ("/contribute/" ++ slug))
                   {| method := Some "POST";
                      body := Some required;
                      headers := Some (api_headers env) |}))
  /\ JSON_parse required = Some (JObj [ ("type", JStr type); ("content", JStr content) ])
  /\ (forall w,
        dispatch env w (call_submit_contribution slug type content source_url scene_id
                          liberty_note)
        = settle w (fetch w (api_url env ("/contribute/" ++ slug))
                      {| method := Some "POST";
                         body := Some (JSON_stringify (JObj b) 0);
                         headers := Some (api_headers env) |}))
  /\ Obj.keys b
     = ([ "type"; "content" ]
        ++ keep (truthy_opt truthy_string source_url) "source_url"
        ++ keep (truthy_opt truthy_number scene_id) "scene_id"
        ++ keep (truthy_opt truthy_string liberty_note) "liberty_note")%list
  /\ Obj.get b "type" = Some (JStr type)
  /\ Obj.get b "content" = Some (JStr content)
  /\ Obj.get b "source_url" = body_field truthy_string JStr source_url
  /\ Obj.get b "scene_id" = body_field truthy_number JNum scene_id
  /\ Obj.get b "liberty_note" = body_field truthy_string JStr liberty_note.
Proof.
  intros b required.
  assert (T : JSON_stringify (JObj [ ("type", JStr type); ("content", JStr content) ]) 0
              = required).
  { unfold required, JSON_stringify. simpl. unfold json_member. simpl.
    rewrite !append_assoc. simpl. rewrite !append_assoc. reflexivity. }
  split; [|split; [|split]].
  { intros w. rewrite <- T. reflexivity. }
  { rewrite <- T. apply JSON_roundtrip.
    apply (submit_contribution_body_wf type content None None None). reflexivity. }
  { intros w. reflexivity. }
  unfold b, submit_contribution_body.
  destruct source_url as [[|a u]|], scene_id as [[|p|p]|],
    liberty_note as [[|a' l]|]; simpl; repeat split; reflexivity.
Qed.

(** ** C8: the registry *)

(** C8, as stated, fails: the source registers eight tools, not nine. *)
Lemma registry_has_not_nine_tools : length tools <> 9.
Proof. discriminate. Qed.

(** C8 (amended): the registry declares exactly eight tools with pairwise
    different names; each has a description and a parameter schema, whose
    parameters have the names, the types (string, number, or an enumeration
    with its values) and the optionality tabulated in the specification;
    every call is a call of one of them, and its request has the method and
    the path of the tool's row: the path is the row's root, followed by the
    slug for the tools that take one and by the query string, if any, for
    the others. *)
Theorem registry_tools :
  length tools = 8
  /\ NoDup (map name tools)
  /\ map typed_schema tools =
       [ ("get_assignment", [ ("slug", z_string, false) ]);
         ("submit_contribution",
            [ ("slug", z_string, false); ("type", z_string, false);
              ("content", z_string, false); ("source_url", z_string, true);
              ("scene_id", z_number, true); ("liberty_note", z_string, true) ]);
         ("review_person", [ ("slug", z_string, false) ]);
         ("browse_people",
            [ ("q", z_string, true); ("tag", z_string, true);
              ("page", z_number, true); ("limit", z_number, true) ]);
         ("find_needs",
            [ ("priority", z_enum ["high"; "medium"; "low"], true);
              ("tag", z_string, true); ("limit", z_number, true) ]);
         ("my_contributions",
            [ ("status", z_enum ["pending"; "approved"; "rejected"; "integrated";
                                 "needs-revision"], true);
              ("type", z_string, true) ]);
         ("leaderboard", [ ("limit", z_number, true) ]);
         ("check_confidence", [ ("slug", z_string, false) ]) ]
  /\ map signature tools =
       [ ("get_assignment", ["slug"], []);
         ("submit_contribution", ["slug"; "type"; "content"],
            ["source_url"; "scene_id"; "liberty_note"]);
         ("review_person", ["slug"], []);
         ("browse_people", [], ["q"; "tag"; "page"; "limit"]);
         ("find_needs", [], ["priority"; "tag"; "limit"]);
         ("my_contributions", [], ["status"; "type"]);
         ("leaderboard", [], ["limit"]);
         ("check_confidence", ["slug"], []) ]
  /\ (forall t, In t tools -> truthy_string (description t) = true)
  /\ (forall c, In (call_name c) (map name tools))
  /\ (forall env c,
        exists init root rest,
          (forall w, dispatch env w c
                     = settle w (fetch w (api_url env (root ++ rest)) init))
          /\ In (call_name c, http_method init, root)
               [ ("get_assignment", "GET", "/assignment/");
                 ("submit_contribution", "POST", "/contribute/");
                 ("review_person", "GET", "/review/");
                 ("browse_people", "GET", "/people");
                 ("find_needs", "GET", "/needs");
                 ("my_contributions", "GET", "/contributions");
                 ("leaderboard", "GET", "/leaderboard");
                 ("check_confidence", "GET", "/confidence/") ]
          /\ match call_slug c with
             | Some slug => rest = slug
             | None => rest = EmptyString \/ exists qs, rest = String "?" qs
             end).
Proof.
  split; [reflexivity|]. split.
  { simpl. repeat (constructor; [simpl; intuition discriminate|]). constructor. }
  split; [reflexivity|]. split; [reflexivity|]. split.
  { intros t H. simpl in H.
    repeat (destruct H as [<-|H]; [reflexivity|]). destruct H. }
  split.
  { intros c. destruct c; simpl; tauto. }
  intros env c. exists (call_init env c).
  assert (Q : forall qs, (if truthy_string qs then "?" ++ qs else EmptyString)
                         = EmptyString
                         \/ exists r, (if truthy_string qs then "?" ++ qs
                                       else EmptyString) = String "?" r).
  { intros qs. destruct (truthy_string qs); [right; eexists; reflexivity | now left]. }
  destruct c.
  - exists "/assignment/", slug.
    split; [intros w; reflexivity|]. split; [simpl; tauto | reflexivity].
  - exists "/contribute/", slug.
    split; [intros w; reflexivity|]. split; [simpl; tauto | reflexivity].
  - exists "/review/", slug.
    split; [intros w; reflexivity|]. split; [simpl; tauto | reflexivity].
  - eexists "/people", _.
    split; [intros w; reflexivity|]. split; [simpl; tauto | apply Q].
  - eexists "/needs", _.
    split; [intros w; reflexivity|]. split; [simpl; tauto | apply Q].
  - eexists "/contributions", _.
    split; [intros w; reflexivity|]. split; [simpl; tauto | apply Q].
  - eexists "/leaderboard", _.
    split; [intros w; reflexivity|]. split; [simpl; tauto|].
    simpl. destruct limit as [n|]; [|now left].
    destruct (truthy_number n); [right; eexists; reflexivity | now left].
  - exists "/confidence/", slug.
    split; [intros w; reflexivity|]. split; [simpl; tauto | reflexivity].
Qed.

(** ** C9: the headers *)

(** the headers [api] starts from *)
Lemma get_api_headers (env : environment) (k : string) :
  Obj.get (api_headers env) k = default_header env k.
Proof.
  unfold api_headers, default_header.
  rewrite (String.eqb_sym k "Content-Type"), (String.eqb_sym k "X-Agent-Name"),
    (String.eqb_sym k "X-Model"), (String.eqb_sym k "Authorization").
  destruct (truthy_string (MODEL_NAME env)), (truthy_string (USER_TOKEN env));
    rewrite ?get_set; cbn [Obj.get];
    destruct (String.eqb_spec "Content-Type" k) as [<-|_]; try reflexivity;
    destruct (String.eqb_spec "X-Agent-Name" k) as [<-|_]; try reflexivity;
    destruct (String.eqb_spec "X-Model" k) as [<-|_]; try reflexivity;
    destruct (String.eqb_spec "Authorization" k) as [<-|_]; reflexivity.
Qed.

(** C9: the request [api] hands to [fetch] has the caller's method and body
    and a header record in which a name the caller supplied has the caller's
    value (the last one given) and any other name its default:
    [X-Agent-Name] has the agent name, [X-Model] the model name exactly when
    one is configured, [Authorization] the text [Bearer <token>] exactly
    when a token is, [Content-Type] is [application/json], and there is no
    other default.  The handlers supply no header, so the request of every
    tool call carries exactly the defaults. *)
Theorem api_request_headers
    (env : environment) (path : string) (options : option RequestInit) :
  exists sent,
    (forall w,
       api env w path options
       = api_settle w (fetch w (api_url env path)
                         {| method := match options with
                                      | Some o => method o
                                      | None => None
                                      end;
                            body := match options with
                                    | Some o => body o
                                    | None => None
                                    end;
                            headers := Some sent |}))
    /\ (forall k,
          Obj.get sent k
          = match options with
            | Some {| headers := Some caller |} =>
                match Obj.get (List.rev caller) k with
                | Some v => Some v
                | None => default_header env k
                end
            | _ => default_header env k
            end)
    /\ (forall c,
          exists init defaults,
            (forall w, dispatch env w c = settle w (fetch w (call_url env c) init))
            /\ headers init = Some defaults
            /\ forall k, Obj.get defaults k = default_header env k).
Proof.
  exists (Obj.spread (api_headers env) (options_headers options)).
  split; [intros w; reflexivity|]. split.
  - intros k. rewrite get_spread, get_api_headers.
    destruct options as [[m b [h|]]|]; reflexivity.
  - intros c. exists (call_init env c), (api_headers env).
    split; [intros w; apply dispatch_settle|].
    split; [destruct c; reflexivity | apply get_api_headers].
Qed.
(** ** C10: the question marks of the URL *)

(** C10, as stated, fails: a slug with two question marks gives a URL with
    two, no token being configured. *)
Lemma url_with_two_question_marks :
  truthy_string (USER_TOKEN default_environment) = false
  /\ call_url default_environment (call_get_assignment "a?b?c")
     = "https://api.biopics.ai/assignment/a?b?c&agent=mcp-agent"
  /\ count_char "?" (call_url default_environment (call_get_assignment "a?b?c")) = 2.
Proof. repeat split. Qed.

(** C10 (amended): the agent parameter is appended with "&" when the path
    contains a "?" and with "?" otherwise; so, no token being configured,
    the URL of a call has exactly one "?" when the slug of the call, if it
    has one, holds at most one "?" and the agent name holds none. *)
Theorem call_url_one_question_mark (env : environment) (c : call) :
  truthy_string (USER_TOKEN env) = false ->
  count_char "?" (AGENT_NAME env) = 0 ->
  slug_question_marks c <= 1 ->
  call_url env c
  = API_BASE ++ call_path c
    ++ (if includes "?" (call_path c) then "&" else "?") ++ "agent=" ++ AGENT_NAME env
  /\ count_char "?" (call_url env c) = 1.
Proof.
  intros Ht Ha Hs. split.
  - unfold call_url, api_url, agentSuffix, sep. now rewrite Ht.
  - unfold call_url. rewrite count_api_url, Ht, Ha.
    pose proof (count_call_path c) as Hc.
    rewrite (includes_char "?" (call_path c)).
    destruct (count_char "?" (call_path c)) as [|[|n]]; simpl; lia.
Qed.

Lemma call_url_one_question_mark_witness :
  let c := call_browse_people (Some "who?") (Some "Music") None (Some 5%Z) in
  call_url default_environment c
  = API_BASE ++ call_path c
    ++ (if includes "?" (call_path c) then "&" else "?")
    ++ "agent=" ++ AGENT_NAME default_environment
  /\ count_char "?" (call_url default_environment c) = 1.
Proof.
  apply (call_url_one_question_mark default_environment
           (call_browse_people (Some "who?") (Some "Music") None (Some 5%Z))).
  - reflexivity.
  - reflexivity.
  - vm_compute. lia.
Defined.

(** * Further properties of the code *)

(** ** The outcome of a call *)

Lemma toolError_not_success (err : thrown) : ~ is_success (toolError err).
Proof. intros [p H]. discriminate H. Qed.

(** X1: a call returns a success envelope exactly when the endpoint answered
    its request with a 2xx status and a body that could be read and is JSON
    text; every other course of events that ends gives an envelope flagged
    as an error. *)
Theorem success_exactly_when (env : environment) (w : world) (c : call) :
  ((exists e, dispatch env w c = Ok e /\ is_success e)
   <-> (exists res s,
          fetch w (call_url env c) (call_init env c) = Ok res
          /\ ok res = true /\ read_body res = Ok s /\ JSON_valid s = true))
  /\ (forall e, dispatch env w c = Ok e -> ~ is_success e ->
                is_error e /\ isError e = Some true).
Proof.
  rewrite dispatch_outcome.
  destruct (fetch w (call_url env c) (call_init env c)) as [res|err|] eqn:Hf;
    [destruct (read_body res) as [s|err|] eqn:Hb;
     [destruct (ok res) eqn:Hok; [destruct (JSON_valid s) eqn:Hv|]|..]|..].
  all: split;
    [split;
     [intros (e & He & Hs);
      first [discriminate He
            | injection He as <-;
              first [now apply toolError_not_success in Hs
                    | exists res, s; repeat split; assumption]]
     |intros (r & s' & Hr & Hok' & Hb' & Hv');
      first [congruence | eexists; split; [reflexivity|apply toolResult_success]]]
    |intros e He Hs;
     first [discriminate He
           | injection He as <-;
             first [now elim Hs; apply toolResult_success
                   | split; [apply toolError_error|reflexivity]]]].
Qed.

(** X2: a 2xx answer whose body is empty or blank, as that of a 204, makes
    the call fail: [res.json()] throws on it, and the call returns the error
    envelope of that SyntaxError. *)
Theorem blank_body_gives_error_envelope
    (env : environment) (w : world) (c : call) (res : Response) (s : string) :
  fetch w (call_url env c) (call_init env c) = Ok res ->
  ok res = true ->
  read_body res = Ok s ->
  all_ws s = true ->
  dispatch env w c = Ok (toolError (Error (syntax_error w s)))
  /\ isError (toolError (Error (syntax_error w s))) = Some true.
Proof.
  intros Hf Hok Hb Hs.
  rewrite dispatch_outcome, Hf, Hb, Hok, (JSON_valid_blank s Hs).
  split; reflexivity.
Qed.

Lemma blank_body_gives_error_envelope_witness :
  dispatch default_environment
    (world_answering {| status := 204; read_body := Ok EmptyString;
       foreign_stringified := EmptyString |})
    (call_check_confidence "frida-kahlo")
  = Ok (toolError (Error "Unexpected token in JSON"))
  /\ isError (toolError (Error "Unexpected token in JSON")) = Some true.
Proof.
  apply (blank_body_gives_error_envelope default_environment
           (world_answering {| status := 204; read_body := Ok EmptyString;
       foreign_stringified := EmptyString |})
           (call_check_confidence "frida-kahlo")
           {| status := 204; read_body := Ok EmptyString;
       foreign_stringified := EmptyString |} EmptyString);
    reflexivity.
Defined.

(** X3: a call makes one request, the one to its URL with its options: two
    worlds that answer this request alike (and word syntax errors alike)
    give the same envelope, whatever they would answer to other requests. *)
Theorem dispatch_depends_on_one_request
    (env : environment) (w w' : world) (c : call) :
  fetch w (call_url env c) (call_init env c)
  = fetch w' (call_url env c) (call_init env c) ->
  (forall s, syntax_error w s = syntax_error w' s) ->
  dispatch env w c = dispatch env w' c.
Proof.
  intros Hf Hs. rewrite !dispatch_outcome, Hf.
  destruct (fetch w' _ _) as [res|err|]; [|reflexivity|reflexivity].
  destruct (read_body res) as [s|err|]; [|reflexivity|reflexivity].
  now rewrite Hs.
Qed.

Lemma dispatch_depends_on_one_request_witness :
  dispatch default_environment (world_answering not_found) (call_leaderboard None)
  = dispatch default_environment
      (world_answering_at "https://api.biopics.ai/leaderboard?agent=mcp-agent" not_found)
      (call_leaderboard None).
Proof.
  apply (dispatch_depends_on_one_request default_environment
           (world_answering not_found)
           (world_answering_at "https://api.biopics.ai/leaderboard?agent=mcp-agent"
              not_found)
           (call_leaderboard None)).
  - reflexivity.
  - intros s. reflexivity.
Defined.

(** ** The query string of a request *)

Lemma form_pair_agent (value : string) :
  fst (form_pair ("agent=" ++ value)) = "agent".
Proof.
  unfold form_pair. cbn [fst].
  change ("agent=" ++ value) with ("agent" ++ String "=" value).
  now rewrite before_app.
Qed.

Lemma query_keys_agent (value : string) :
  count_char "&" value = 0 ->
  map fst (map form_pair (filter truthy_string (split_on "&" ("agent=" ++ value))))
  = ["agent"].
Proof.
  intros H. rewrite split_on_clean by (rewrite count_char_app, H; reflexivity).
  cbn [filter]. change (truthy_string ("agent=" ++ value)) with true.
  cbn [map]. now rewrite form_pair_agent.
Qed.

(** X4: the agent parameter never merges with what the path brings: when
    the path and the agent name hold no control character and no space and
    the agent name holds no "&", the query keys of the URL are those of the
    path, followed by [agent] when no token is configured and the path has
    no "#"; in a path with a "#" what [api] appends lands in the fragment
    and the query has no [agent] key of its making. *)
Theorem query_keys_api_url (env : environment) (path : string) :
  all_chars graphic path = true ->
  all_chars graphic (AGENT_NAME env) = true ->
  count_char "&" (AGENT_NAME env) = 0 ->
  query_keys (api_url env path)
  = (query_keys path
     ++ (if truthy_string (USER_TOKEN env) || includes "#" path then []
         else ["agent"]))%list.
Proof.
  intros _ _ Ha. unfold api_url, agentSuffix, sep, query_keys.
  rewrite query_pairs_base.
  destruct (truthy_string (USER_TOKEN env)).
  { now rewrite append_nil_r, List.app_nil_r. }
  cbn [orb]. unfold query_pairs, query_string.
  rewrite (includes_char "#" path).
  destruct (count_char "#" path) as [|n] eqn:Hh; cbn [Nat.eqb negb].
  - assert (Ha' : count_char "&" (before "#" (AGENT_NAME env)) = 0)
      by now apply count_before.
    rewrite (before_clean "#" path Hh).
    rewrite (before_app_clean "#" path) by assumption.
    rewrite includes_after_first.
    destruct (after_first "?" path) as [qs|] eqn:E.
    + rewrite (before_app_clean "#" "&") by reflexivity.
      rewrite (before_app_clean "#" "agent=") by reflexivity.
      rewrite (after_first_some _ _ _ _ E).
      change ("&" ++ "agent=" ++ before "#" (AGENT_NAME env))
        with (String "&" ("agent=" ++ before "#" (AGENT_NAME env))).
      rewrite split_on_app_any, filter_app, !map_app.
      now rewrite query_keys_agent.
    + rewrite (before_app_clean "#" "?") by reflexivity.
      rewrite (before_app_clean "#" "agent=") by reflexivity.
      change ("?" ++ "agent=" ++ before "#" (AGENT_NAME env))
        with (String "?" ("agent=" ++ before "#" (AGENT_NAME env))).
      rewrite after_first_app by now apply after_first_none_count.
      now rewrite query_keys_agent.
  - rewrite before_app_has by (rewrite Hh; discriminate).
    now rewrite List.app_nil_r.
Qed.

Lemma query_keys_api_url_witness :
  query_keys (api_url default_environment "/people?q=a%26b&tag=Music")
  = ["q"; "tag"; "agent"].
Proof.
  apply (query_keys_api_url default_environment "/people?q=a%26b&tag=Music");
    reflexivity.
Defined.

(** X5: the query string of a query-parameterized tool carries the truthy
    arguments losslessly, the numbers being safe integers: read back by the
    form parser, the path gives each of them under its key with the very
    value supplied (a number in decimal), in source order, whatever
    characters the value holds. *)
Theorem query_pairs_of_paths
    (q tag type : option string) (page limit : option Z)
    (priority : option priority_enum) (status : option status_enum) :
  safe_opt page = true ->
  safe_opt limit = true ->
  query_pairs (browse_people_path q tag page limit)
  = (keep_pair truthy_string id_string "q" q
     ++ keep_pair truthy_string id_string "tag" tag
     ++ keep_pair truthy_number string_of_number "page" page
     ++ keep_pair truthy_number string_of_number "limit" limit)%list
  /\ query_pairs (find_needs_path priority tag limit)
     = (keep_pair (fun _ => true) priority_string "priority" priority
        ++ keep_pair truthy_string id_string "tag" tag
        ++ keep_pair truthy_number string_of_number "limit" limit)%list
  /\ query_pairs (my_contributions_path status type)
     = (keep_pair (fun _ => true) status_string "status" status
        ++ keep_pair truthy_string id_string "type" type)%list
  /\ query_pairs (leaderboard_path limit)
     = keep_pair truthy_number string_of_number "limit" limit.
Proof.
  intros _ _.
  split; [apply query_pairs_browse_people|].
  split; [apply query_pairs_find_needs|].
  split; [apply query_pairs_my_contributions | apply query_pairs_leaderboard].
Qed.

Lemma query_pairs_of_paths_witness :
  query_pairs (browse_people_path (Some "a&b = c?") (Some "Music") (Some 2%Z) (Some 50%Z))
  = [ ("q", "a&b = c?"); ("tag", "Music"); ("page", "2"); ("limit", "50") ]
  /\ query_pairs (find_needs_path (Some high) (Some "Music") (Some 50%Z))
     = [ ("priority", "high"); ("tag", "Music"); ("limit", "50") ]
  /\ query_pairs (my_contributions_path (Some needs_revision) (Some "quote"))
     = [ ("status", "needs-revision"); ("type", "quote") ]
  /\ query_pairs (leaderboard_path (Some 50%Z)) = [ ("limit", "50") ].
Proof.
  apply (query_pairs_of_paths (Some "a&b = c?") (Some "Music") (Some "quote")
           (Some 2%Z) (Some 50%Z) (Some high) (Some needs_revision));
    reflexivity.
Defined.

(** ** The text of a status error *)

Lemma read_digits_stop (d : uint) (rest : string) :
  read_digits rest = (Nil, rest) ->
  read_digits (string_of_digits d ++ rest) = (d, rest).
Proof. intros H. induction d; simpl; try (rewrite IHd; reflexivity). exact H. Qed.

Lemma to_uint_nonnil (n : N) : N.to_uint n <> Nil.
Proof.
  destruct n as [|p]; [discriminate|]. apply (to_uint_pos_head p).
Qed.

Lemma read_api_error_text (st : N) (B : string) :
  read_api_error ("Error: " ++ "API " ++ string_of_N st ++ ": " ++ B) = Some (st, B).
Proof.
  unfold read_api_error, string_of_N. cbn [append strip_prefix Ascii.eqb Bool.eqb].
  rewrite read_digits_stop by reflexivity.
  pose proof (to_uint_nonnil st) as Hn.
  pose proof (DecimalN.Unsigned.of_to st) as Ho.
  destruct (N.to_uint st); [congruence | ..];
    cbn [strip_prefix Ascii.eqb Bool.eqb]; now rewrite Ho.
Qed.

(** X6: the error text of a status error can be taken apart again: when the
    endpoint answers with a status that is not 2xx, the status and the body
    are read back from the text of the envelope, whatever the body holds. *)
Theorem status_error_reads_back
    (env : environment) (w : world) (c : call) (res : Response) (B : string) :
  fetch w (call_url env c) (call_init env c) = Ok res ->
  ok res = false ->
  read_body res = Ok B ->
  exists e, dispatch env w c = Ok e
            /\ read_api_error (envelope_text e) = Some (status res, B).
Proof.
  intros Hf Hok Hb. eexists. split.
  - rewrite dispatch_outcome, Hf, Hb, Hok. reflexivity.
  - apply read_api_error_text.
Qed.

Lemma status_error_reads_back_witness :
  exists e, dispatch default_environment
              (world_answering {| status := 503; read_body := Ok "API 200: ok";
                                 foreign_stringified := EmptyString |})
              (call_review_person "frida-kahlo") = Ok e
            /\ read_api_error (envelope_text e) = Some (503%N, "API 200: ok").
Proof.
  apply (status_error_reads_back default_environment
           (world_answering {| status := 503; read_body := Ok "API 200: ok";
                                 foreign_stringified := EmptyString |})
           (call_review_person "frida-kahlo")
           {| status := 503; read_body := Ok "API 200: ok";
                                 foreign_stringified := EmptyString |} "API 200: ok");
    reflexivity.
Defined.

(** ** The body of submit_contribution, in general *)

(** X7: whatever the arguments of submit_contribution (the scene a safe
    integer), the request text parses back to the body the handler built,
    and that body gives each optional field the value supplied when it is
    truthy and no value otherwise. *)
Theorem submit_contribution_body_reads_back
    (env : environment) (slug type content : string)
    (source_url : option string) (scene_id : option Z) (liberty_note : option string) :
  safe_opt scene_id = true ->
  let b := submit_contribution_body type content source_url scene_id liberty_note in
  exists text,
    body (call_init env (call_submit_contribution slug type content source_url
                           scene_id liberty_note)) = Some text
    /\ JSON_parse text = Some (JObj b)
    /\ Obj.get b "source_url" = body_field truthy_string JStr source_url
    /\ Obj.get b "scene_id" = body_field truthy_number JNum scene_id
    /\ Obj.get b "liberty_note" = body_field truthy_string JStr liberty_note.
Proof.
  intros Hs b. exists (JSON_stringify (JObj b) 0).
  split; [reflexivity|]. split.
  - apply JSON_roundtrip, submit_contribution_body_wf.
    destruct scene_id; [exact Hs | reflexivity].
  - unfold b, submit_contribution_body.
    destruct source_url as [[|a u]|], scene_id as [[|p|p]|],
      liberty_note as [[|a' l]|]; repeat split.
Qed.

Lemma submit_contribution_body_reads_back_witness :
  let b := submit_contribution_body "quote" "I paint my own reality."
             (Some "https://example.org/kahlo") (Some 7%Z) (Some EmptyString) in
  exists text,
    body (call_init default_environment
            (call_submit_contribution "frida-kahlo" "quote" "I paint my own reality."
               (Some "https://example.org/kahlo") (Some 7%Z) (Some EmptyString)))
    = Some text
    /\ JSON_parse text = Some (JObj b)
    /\ Obj.get b "source_url" = Some (JStr "https://example.org/kahlo")
    /\ Obj.get b "scene_id" = Some (JNum 7)
    /\ Obj.get b "liberty_note" = None.
Proof.
  apply (submit_contribution_body_reads_back default_environment
           "frida-kahlo" "quote" "I paint my own reality."
           (Some "https://example.org/kahlo") (Some 7%Z) (Some EmptyString)).
  reflexivity.
Defined.

(** ** Where and how a request goes *)

(** X8: every request of every tool goes to the one host over https: the
    URL is "https://api.biopics.ai/" followed by something, whatever the
    arguments and the settings; no argument can redirect it. *)
Theorem call_url_host (env : environment) (c : call) :
  exists rest, call_url env c = "https://api.biopics.ai/" ++ rest.
Proof.
  unfold call_url, api_url.
  destruct c; cbn [call_path];
    unfold browse_people_path, find_needs_path, my_contributions_path,
      leaderboard_path, with_query;
    eexists; reflexivity.
Qed.

(** no handler passes headers of its own *)
Lemma call_headers (env : environment) (c : call) :
  headers (call_init env c) = Some (api_headers env).
Proof. destruct c; reflexivity. Qed.

(** X9: only submit_contribution names a method, POST, and sends a body;
    the request of every other tool has neither, so that [fetch] makes it a
    GET. Every request has the header Content-Type: application/json, and
    its headers are Content-Type, X-Agent-Name, then X-Model and
    Authorization when configured, with no other. *)
Theorem call_init_shape (env : environment) (c : call) :
  method (call_init env c)
  = (if String.eqb (call_name c) "submit_contribution" then Some "POST" else None)
  /\ (if String.eqb (call_name c) "submit_contribution"
      then exists text, body (call_init env c) = Some text
      else body (call_init env c) = None)
  /\ exists h,
       headers (call_init env c) = Some h
       /\ Obj.get h "Content-Type" = Some "application/json"
       /\ Obj.keys h
          = ([ "Content-Type"; "X-Agent-Name" ]
             ++ keep (truthy_string (MODEL_NAME env)) "X-Model"
             ++ keep (truthy_string (USER_TOKEN env)) "Authorization")%list.
Proof.
  split; [destruct c; reflexivity|]. split.
  - destruct c; try reflexivity. eexists. reflexivity.
  - exists (api_headers env). split; [apply call_headers|].
    unfold api_headers.
    destruct (truthy_string (MODEL_NAME env)), (truthy_string (USER_TOKEN env));
      split; reflexivity.
Qed.

(** ** Settings *)

Lemma env_or_unset_empty (v : option string) (fallback : string) :
  env_or (unset_empty v) fallback = env_or v fallback.
Proof. destruct v as [[|a s]|]; reflexivity. Qed.

Lemma env_or_truthy (v : option string) (fallback : string) :
  truthy_string fallback = true -> truthy_string (env_or v fallback) = true.
Proof. intros H. destruct v as [[|a s]|]; simpl; auto. Qed.

(** X10: a setting given as the empty string counts as not given: the
    requests are those of the environment where it is unset, so that an
    empty token means no Authorization header and an agent parameter in the
    URL; and the agent name is never empty, [mcp-agent] standing in. *)
Theorem empty_setting_is_unset (env : environment) (c : call) :
  call_url env c = call_url (normalize env) c
  /\ call_init env c = call_init (normalize env) c
  /\ truthy_string (AGENT_NAME env) = true
  /\ (BIOPICS_AGENT env = Some EmptyString -> AGENT_NAME env = "mcp-agent")
  /\ (BIOPICS_USER_TOKEN env = Some EmptyString ->
      Obj.get (api_headers env) "Authorization" = None
      /\ call_url env c
         = API_BASE ++ call_path c ++ sep (call_path c) ++ "agent=" ++ AGENT_NAME env).
Proof.
  assert (A : AGENT_NAME (normalize env) = AGENT_NAME env)
    by apply env_or_unset_empty.
  assert (M : MODEL_NAME (normalize env) = MODEL_NAME env)
    by apply env_or_unset_empty.
  assert (T : USER_TOKEN (normalize env) = USER_TOKEN env)
    by apply env_or_unset_empty.
  assert (H : api_headers (normalize env) = api_headers env)
    by (unfold api_headers; now rewrite A, M, T).
  split; [|split; [|split; [|split]]].
  - unfold call_url, api_url, agentSuffix. now rewrite A, T.
  - unfold call_init, api_init. now rewrite H.
  - now apply env_or_truthy.
  - unfold AGENT_NAME. now intros ->.
  - intros E.
    assert (U : USER_TOKEN env = EmptyString) by (unfold USER_TOKEN; now rewrite E).
    split.
    + unfold api_headers. rewrite U. simpl.
      destruct (truthy_string (MODEL_NAME env)); reflexivity.
    + unfold call_url, api_url, agentSuffix. now rewrite U.
Qed.


(** ** The success payload *)

(** X12: when the endpoint answers a call of any tool with a 2xx status and
    a body that is the JSON text of a value B whose numbers are safe
    integers written in digits only, whose strings escape no surrogate and
    whose objects have no key of digits only, the call returns the success
    envelope of B: its text is B printed with an indentation of 2, and
    parsing that text gives B again. *)
Theorem success_payload_parses_back
    (env : environment) (w : world) (c : call) (res : Response) (s : string) (B : json) :
  fetch w (call_url env c) (call_init env c) = Ok res ->
  ok res = true ->
  read_body res = Ok s ->
  JSON_parse s = Some B ->
  exists e,
    dispatch env w c = Ok e
    /\ is_success e
    /\ envelope_text e = JSON_stringify B 2
    /\ JSON_parse (envelope_text e) = Some B.
Proof.
  intros Hf Hok Hs HB. exists (toolResult (Value B)).
  split; [|split; [|split]].
  - rewrite dispatch_outcome, Hf, Hs, Hok, HB, (JSON_parse_valid s B HB).
    reflexivity.
  - eexists. reflexivity.
  - reflexivity.
  - apply JSON_roundtrip. now apply JSON_parse_wf in HB.
Qed.

Lemma success_payload_parses_back_witness :
  exists e,
    dispatch default_environment (world_answering people_response)
      (call_browse_people None (Some "Art") None (Some 2%Z)) = Ok e
    /\ is_success e
    /\ envelope_text e = JSON_stringify people_page 2
    /\ JSON_parse (envelope_text e) = Some people_page.
Proof.
  apply (success_payload_parses_back default_environment
           (world_answering people_response)
           (call_browse_people None (Some "Art") None (Some 2%Z))
           people_response (JSON_stringify people_page 0) people_page).
  - reflexivity.
  - reflexivity.
  - reflexivity.
  - vm_compute. reflexivity.
Defined.
